(** * PhysicsSimulation: the rigid-circle physics core of the demo page

    A shallow embedding of the [PhysicsSimulation] class (constructor,
    [addObjectAt], [toggleGravity], [clearObjects], [update] and
    [checkCollision]).

    JavaScript numbers are IEEE 754 binary64 values.  The code is embedded once,
    over an interface [JsNumber] that lists the arithmetic the class uses, and
    the interface is instantiated twice:
    - [float_number]: Rocq's primitive binary64 floats, with the operations of
      the JavaScript engine (NaN, infinities and rounding included); every
      definition evaluates on it;
    - [real_number]: the real numbers, the idealisation in which the algebraic
      properties of the resolver are stated.

    The same file embeds the render loop of the simulation and the other
    components of the script that compute something: [utils.clamp], the tilt
    parallax, the particles, the carousel, the vector helpers of the 3D view,
    the theme switch and the navigation menu. *)

From Stdlib Require Import ZArith Reals Lra Lia.
From Stdlib Require PrimFloat FloatOps SpecFloat.
From Stdlib Require Import QArith Qabs.
From stdpp Require Import base list strings.

Set Default Proof Using "Type".

(** ** The number interface *)

Class JsNumber (num : Type) := {
  (** the decimal literal [m / 10^k]: [lit 1667 2] is [16.67] *)
  lit : Z -> nat -> num;
  add : num -> num -> num;
  sub : num -> num -> num;
  mul : num -> num -> num;
  div : num -> num -> num;
  neg : num -> num;
  (** [Math.sqrt] *)
  Math_sqrt : num -> num;
  (** [Math.min] of two arguments *)
  Math_min : num -> num -> num;
  (** the relational operator [<]; [a > b] is [lt b a] *)
  lt : num -> num -> bool
}.

Declare Scope js_scope.
Delimit Scope js_scope with js.
Notation "a + b" := (add a b) : js_scope.
Notation "a - b" := (sub a b) : js_scope.
Notation "a * b" := (mul a b) : js_scope.
Notation "a / b" := (div a b) : js_scope.
Notation "- a" := (neg a) : js_scope.
Notation "a <? b" := (lt a b) : js_scope.
Notation "a >? b" := (lt b a) : js_scope.

(** *** Binary64 instance *)

Module Float64.

(** An integer below 2^53 as a float, by doubling: every step is exact. *)
Fixpoint of_pos (p : positive) : PrimFloat.float :=
  match p with
  | xH => PrimFloat.one
  | xO q => PrimFloat.mul PrimFloat.two (of_pos q)
  | xI q => PrimFloat.add (PrimFloat.mul PrimFloat.two (of_pos q)) PrimFloat.one
  end.

Definition of_Z (z : Z) : PrimFloat.float :=
  match z with
  | Z0 => PrimFloat.zero
  | Zpos p => of_pos p
  | Zneg p => PrimFloat.opp (of_pos p)
  end.

(** A decimal literal is the correctly rounded quotient of two exactly
    represented integers, which is the float nearest to the literal. *)
Definition lit (m : Z) (k : nat) : PrimFloat.float :=
  PrimFloat.div (of_Z m) (of_Z (10 ^ Z.of_nat k)).

(** [Math.min(a, b)]: NaN if either argument is NaN, and -0 below +0. *)
Definition min (a b : PrimFloat.float) : PrimFloat.float :=
  if (PrimFloat.is_nan a || PrimFloat.is_nan b)%bool then PrimFloat.nan
  else if PrimFloat.ltb a b then a
  else if PrimFloat.ltb b a then b
  else if PrimFloat.get_sign a then a else b.

(** The exact value of a finite float, as a rational number. *)
Definition exact (v : PrimFloat.float) : option Q :=
  match FloatOps.Prim2SF v with
  | SpecFloat.S754_zero _ => Some 0%Q
  | SpecFloat.S754_finite s m e =>
      Some (inject_Z (if s then Zneg m else Zpos m) * (2 # 1) ^ e)%Q
  | _ => None
  end.

End Float64.

#[export] Instance float_number : JsNumber PrimFloat.float := {
  lit := Float64.lit;
  add := PrimFloat.add;
  sub := PrimFloat.sub;
  mul := PrimFloat.mul;
  div := PrimFloat.div;
  neg := PrimFloat.opp;
  Math_sqrt := PrimFloat.sqrt;
  Math_min := Float64.min;
  lt := PrimFloat.ltb
}.

(** *** Real-number instance *)

Module Real.

Definition lit (m : Z) (k : nat) : R := (IZR m / IZR (10 ^ Z.of_nat k))%R.

Definition ltb (a b : R) : bool := if Rlt_dec a b then true else false.

End Real.

#[export] Instance real_number : JsNumber R := {
  lit := Real.lit;
  add := Rplus;
  sub := Rminus;
  mul := Rmult;
  div := Rdiv;
  neg := Ropp;
  Math_sqrt := R_sqrt.sqrt;
  Math_min := Rmin;
  lt := Real.ltb
}.

(** ** Data model *)

Section Simulation.

Context {num : Type} `{JsNumber num}.

Local Open Scope js_scope.

(** The [color] of an object is the template string
    [hsl(${Math.random() * 360}, 70%, 60%)]; it is kept as its three
    components. *)
Record Color := Hsl { hue : num; saturation : nat; lightness : nat }.

(** The object literal built by [addObjectAt]. *)
Record Body := {
  x : num;
  y : num;
  vx : num;
  vy : num;
  radius : num;
  mass : num;
  color : Color;
  restitution : num;
  friction : num
}.

Record Gravity := { gravity_x : num; gravity_y : num }.

Record Canvas := { width : num; height : num }.

(** The fields of [PhysicsSimulation] that the simulation reads or writes.
    The drawing context, the animation handle, [isRunning] and [lastTime]
    belong to the render loop; the effects on the page (button labels, the
    counter element, vibration) are left out. *)
Record World := {
  canvas : Canvas;
  objects : list Body;
  gravity : Gravity;
  gravityEnabled : bool;
  objectCount : nat
}.

(** Assignments to the four mutable fields of an object. *)
Definition set_x (v : num) (o : Body) : Body :=
  {| x := v; y := y o; vx := vx o; vy := vy o; radius := radius o;
     mass := mass o; color := color o; restitution := restitution o;
     friction := friction o |}.

Definition set_y (v : num) (o : Body) : Body :=
  {| x := x o; y := v; vx := vx o; vy := vy o; radius := radius o;
     mass := mass o; color := color o; restitution := restitution o;
     friction := friction o |}.

Definition set_vx (v : num) (o : Body) : Body :=
  {| x := x o; y := y o; vx := v; vy := vy o; radius := radius o;
     mass := mass o; color := color o; restitution := restitution o;
     friction := friction o |}.

Definition set_vy (v : num) (o : Body) : Body :=
  {| x := x o; y := y o; vx := vx o; vy := v; radius := radius o;
     mass := mass o; color := color o; restitution := restitution o;
     friction := friction o |}.

Definition set_objects (l : list Body) (w : World) : World :=
  {| canvas := canvas w; objects := l; gravity := gravity w;
     gravityEnabled := gravityEnabled w; objectCount := objectCount w |}.

(** ** constructor

    [createCanvas] gives the canvas its fixed size of 600 by 400. *)
Definition constructor : World :=
  {| canvas := {| width := lit 600 0; height := lit 400 0 |};
     objects := [];
     gravity := {| gravity_x := lit 0 0; gravity_y := lit 5 1 |};
     gravityEnabled := true;
     objectCount := 0 |}.

(** ** addObjectAt

    The four calls of [Math.random()], in the order in which the method
    makes them. *)
Record Draws := {
  draw_radius : num;
  draw_hue : num;
  draw_vx : num;
  draw_vy : num
}.

(** The value a call completes with.  [addObjectAt] has two exits, the
    early [return;] of the guard "Limit objects for performance" and the end
    of its body; neither carries a value, and nothing is thrown. *)
Inductive JsValue :=
| JsUndefined
| JsBool (b : bool)
| JsNum (n : num).

Definition updateObjectCount (w : World) : World :=
  {| canvas := canvas w; objects := objects w; gravity := gravity w;
     gravityEnabled := gravityEnabled w;
     objectCount := length (objects w) |}.

Definition addObjectAt (px py : num) (rnd : Draws) (w : World)
  : JsValue * World :=
  if 50 <=? length (objects w) then (JsUndefined, w)
  else
    let radius' := draw_radius rnd * lit 15 0 + lit 10 0 in
    let mass' := radius' / lit 5 0 in
    let color' := Hsl (draw_hue rnd * lit 360 0) 70 60 in
    let object :=
      {| x := px;
         y := py;
         vx := (draw_vx rnd - lit 5 1) * lit 10 0;
         vy := (draw_vy rnd - lit 5 1) * lit 10 0;
         radius := radius';
         mass := mass';
         color := color';
         restitution := lit 8 1;
         friction := lit 99 2 |} in
    (JsUndefined, updateObjectCount (set_objects (objects w ++ [object]) w)).

Definition toggleGravity (w : World) : World :=
  {| canvas := canvas w; objects := objects w; gravity := gravity w;
     gravityEnabled := negb (gravityEnabled w);
     objectCount := objectCount w |}.

Definition clearObjects (w : World) : World :=
  updateObjectCount (set_objects [] w).

(** ** update *)

(** [for (let i = start; i < start + count; i++) s = body i s] *)
Fixpoint for_loop {St : Type} (start count : nat) (body : nat -> St -> St)
  (s : St) : St :=
  match count with
  | O => s
  | S c => for_loop (S start) c body (body start s)
  end.

(** [Math.min(deltaTime / 16.67, 2)] *)
Definition timestep (deltaTime : num) : num :=
  Math_min (deltaTime / lit 1667 2) (lit 2 0).

(** The first loop body up to "Update position": gravity, friction,
    position. *)
Definition integrate (w : World) (dt : num) (obj : Body) : Body :=
  let obj :=
    if gravityEnabled w then
      let obj := set_vx (vx obj + gravity_x (gravity w) * dt) obj in
      set_vy (vy obj + gravity_y (gravity w) * dt) obj
    else obj in
  let obj := set_vx (vx obj * friction obj) obj in
  let obj := set_vy (vy obj * friction obj) obj in
  let obj := set_x (x obj + vx obj * dt) obj in
  set_y (y obj + vy obj * dt) obj.

(** The rest of the first loop body: "Boundary collisions". *)
Definition boundary (w : World) (obj : Body) : Body :=
  let obj :=
    if x obj - radius obj <? lit 0 0 then
      let obj := set_x (radius obj) obj in
      set_vx (- vx obj * restitution obj) obj
    else obj in
  let obj :=
    if x obj + radius obj >? width (canvas w) then
      let obj := set_x (width (canvas w) - radius obj) obj in
      set_vx (- vx obj * restitution obj) obj
    else obj in
  let obj :=
    if y obj - radius obj <? lit 0 0 then
      let obj := set_y (radius obj) obj in
      set_vy (- vy obj * restitution obj) obj
    else obj in
  if y obj + radius obj >? height (canvas w) then
    let obj := set_y (height (canvas w) - radius obj) obj in
    set_vy (- vy obj * restitution obj) obj
  else obj.

(** ** checkCollision

    The two arguments are distinct elements of [this.objects], mutated in
    place; the embedding returns the pair of updated objects. *)
Definition checkCollision (obj1 obj2 : Body) : Body * Body :=
  let dx := x obj2 - x obj1 in
  let dy := y obj2 - y obj1 in
  let distance := Math_sqrt (dx * dx + dy * dy) in
  let minDistance := radius obj1 + radius obj2 in
  if distance <? minDistance then
    let overlap := minDistance - distance in
    let normalX := dx / distance in
    let normalY := dy / distance in
    let totalMass := mass obj1 + mass obj2 in
    let move1 := overlap * (mass obj2 / totalMass) in
    let move2 := overlap * (mass obj1 / totalMass) in
    let obj1 := set_x (x obj1 - normalX * move1) obj1 in
    let obj1 := set_y (y obj1 - normalY * move1) obj1 in
    let obj2 := set_x (x obj2 + normalX * move2) obj2 in
    let obj2 := set_y (y obj2 + normalY * move2) obj2 in
    let relativeVx := vx obj2 - vx obj1 in
    let relativeVy := vy obj2 - vy obj1 in
    let relativeSpeed := relativeVx * normalX + relativeVy * normalY in
    if relativeSpeed >? lit 0 0 then (obj1, obj2)
    else
      let restitution' := Math_min (restitution obj1) (restitution obj2) in
      let impulse := (lit 1 0 + restitution') * relativeSpeed / totalMass in
      let obj1' := set_vx (vx obj1 + impulse * mass obj2 * normalX) obj1 in
      let obj1' := set_vy (vy obj1' + impulse * mass obj2 * normalY) obj1' in
      let obj2' := set_vx (vx obj2 - impulse * mass obj1' * normalX) obj2 in
      let obj2' := set_vy (vy obj2' - impulse * mass obj1' * normalY) obj2' in
      (obj1', obj2')
  else (obj1, obj2).

(** [this.checkCollision(this.objects[i], this.objects[j])] *)
Definition collide_at (i j : nat) (objs : list Body) : list Body :=
  match objs !! i, objs !! j with
  | Some obj1, Some obj2 =>
      let '(obj1', obj2') := checkCollision obj1 obj2 in
      <[j := obj2']> (<[i := obj1']> objs)
  | _, _ => objs
  end.

(** The first loop of [update]: every object is integrated and clamped. *)
Definition move_objects (dt : num) (w : World) : list Body :=
  for_loop 0 (length (objects w))
    (fun i objs =>
       match objs !! i with
       | Some obj => <[i := boundary w (integrate w dt obj)]> objs
       | None => objs
       end)
    (objects w).

(** The second, nested loop of [update]: "Object-to-object collisions". *)
Definition collide_objects (objs : list Body) : list Body :=
  for_loop 0 (length objs)
    (fun i objs =>
       for_loop (S i) (length objs - S i) (fun j objs => collide_at i j objs)
         objs)
    objs.

Definition update (deltaTime : num) (w : World) : World :=
  let dt := timestep deltaTime in
  set_objects (collide_objects (move_objects dt w)) w.

End Simulation.

Arguments Color : clear implicits.
Arguments Body : clear implicits.
Arguments Gravity : clear implicits.
Arguments Canvas : clear implicits.
Arguments World : clear implicits.
Arguments Draws : clear implicits.
Arguments JsValue : clear implicits.

(** ** Vocabulary of the properties *)

Section Vocabulary.

Context {num : Type} `{JsNumber num}.

Local Open Scope js_scope.

(** *** What no statement of [update] assigns *)

Definition static (o : Body num) : num * num * Color num * num * num :=
  (radius o, mass o, color o, restitution o, friction o).

(** *** The geometry of a pair *)

Definition distance (a b : Body num) : num :=
  Math_sqrt ((x b - x a) * (x b - x a) + (y b - y a) * (y b - y a)).

Definition normalX (a b : Body num) : num := (x b - x a) / distance a b.

Definition normalY (a b : Body num) : num := (y b - y a) / distance a b.

(** The velocity of [b] relative to [a], along [(nx, ny)]. *)
Definition relativeSpeed (nx ny : num) (a b : Body num) : num :=
  (vx b - vx a) * nx + (vy b - vy a) * ny.

Definition overlapping (a b : Body num) : bool :=
  distance a b <? radius a + radius b.

(** The impulse scalar of [checkCollision]. *)
Definition impulse (a b : Body num) : num :=
  (lit 1 0 + Math_min (restitution a) (restitution b))
  * relativeSpeed (normalX a b) (normalY a b) a b / (mass a + mass b).

(** The component of the velocity of [o] across the normal [(nx, ny)]. *)
Definition tangentialSpeed (nx ny : num) (o : Body num) : num :=
  vx o * - ny + vy o * nx.

(** *** What the boundary tests of [update] leave behind

    Along one axis, with [p] the coordinate, [r] the radius and [size] the
    extent of the canvas: either [p] is the [size - r] that the far-wall
    branch assigns, or the far-wall test [p + r > size] fails and [p] is the
    [r] that the near-wall branch assigns or fails the near-wall test
    [p - r < 0].  The tests are those of the code, rounding included. *)
Definition settled (p r size : num) : Prop :=
  p = size - r
  \/ ((p + r >? size) = false /\ (p = r \/ (p - r <? lit 0 0) = false)).

Definition contained (c : Canvas num) (o : Body num) : Prop :=
  settled (x o) (radius o) (width c) /\ settled (y o) (radius o) (height c).

(** No two objects of the list overlap. *)
Definition no_overlap (l : list (Body num)) : Prop :=
  forall i j a b, i < j -> l !! i = Some a -> l !! j = Some b ->
                  overlapping a b = false.

(** *** The phases of a step, as the design document words them *)

(** Integrator: every body, in collection order. *)
Definition Integrator (dt_factor : num) (w : World num) (bodies : list (Body num))
  : list (Body num) :=
  integrate w dt_factor <$> bodies.

(** BoundaryResolver: every body after integration. *)
Definition BoundaryResolver (w : World num) (bodies : list (Body num))
  : list (Body num) :=
  boundary w <$> bodies.

(** All unique pairs [(i, j)], [i < j], in ascending lexicographic order. *)
Definition ascending_pairs (n : nat) : list (nat * nat) :=
  flat_map (fun i => pair i <$> seq (S i) (n - S i)) (seq 0 n).

(** CollisionResolver: one pass over the ascending pairs. *)
Definition CollisionResolver (bodies : list (Body num)) : list (Body num) :=
  fold_left (fun bodies p => collide_at (fst p) (snd p) bodies)
    (ascending_pairs (length bodies)) bodies.

Definition step_phased (dt_factor : num) (w : World num) : World num :=
  set_objects
    (CollisionResolver (BoundaryResolver w (Integrator dt_factor w (objects w))))
    w.

(** *** States reachable through the public operations *)

(** [Math.random()] returns a number in the interval from 0 (included) to 1
    (excluded). *)
Definition unit_draw (r : num) : bool := negb (r <? lit 0 0) && (r <? lit 1 0).

Definition valid_draws (rnd : Draws num) : bool :=
  unit_draw (draw_radius rnd) && unit_draw (draw_hue rnd)
  && unit_draw (draw_vx rnd) && unit_draw (draw_vy rnd).

Inductive reachable : World num -> Prop :=
| reach_constructor : reachable constructor
| reach_addObjectAt w px py rnd :
    reachable w -> valid_draws rnd = true ->
    reachable (snd (addObjectAt px py rnd w))
| reach_toggleGravity w : reachable w -> reachable (toggleGravity w)
| reach_clearObjects w : reachable w -> reachable (clearObjects w)
| reach_update w e : reachable w -> reachable (update e w).

(** *** Sequences of spawn requests *)

(** A click: the point and the four draws that the spawn makes. *)
Definition Request : Type := num * num * Draws num.

Definition spawn_all (reqs : list Request) (w : World num) : World num :=
  fold_left (fun w' r => snd (addObjectAt (fst (fst r)) (snd (fst r)) (snd r) w'))
    reqs w.

(** *** The head-on pair of the design document

    Radius 10 and mass 2, centres (40, 50) and (58, 50), velocities (2, 0)
    and (-2, 0); the restitution is left open. *)
Definition head_on_body (cx v r : num) : Body num :=
  {| x := cx; y := lit 50 0; vx := v; vy := lit 0 0; radius := lit 10 0;
     mass := lit 2 0; color := Hsl (lit 0 0) 70 60; restitution := r;
     friction := lit 99 2 |}.

Definition left_body (r : num) : Body num :=
  head_on_body (lit 40 0) (lit 2 0) r.

Definition right_body (r : num) : Body num :=
  head_on_body (lit 58 0) (lit (-2) 0) r.

End Vocabulary.

(** *** Over the real numbers *)

Module Ideal.

Local Open Scope R_scope.

(** [clamp(v, lo, hi)] *)
Definition clamp (v lo hi : R) : R := Rmax lo (Rmin v hi).

Definition in_bounds (c : Canvas R) (o : Body R) : Prop :=
  radius o <= x o <= width c - radius o
  /\ radius o <= y o <= height c - radius o.

(** The material of a body built by [addObjectAt]. *)
Definition spawned (o : Body R) : Prop :=
  10 <= radius o < 25 /\ mass o = radius o / 5
  /\ restitution o = 8 / 10 /\ friction o = 99 / 100.

(** The canvas and the bodies of every reachable state. *)
Definition sized (w : World R) : Prop :=
  canvas w = {| width := 600; height := 400 |}
  /\ Forall spawned (objects w).

(** A world with one body, spawned at (50, 10) with every draw at 1/2. *)
Definition middle_draws : Draws R :=
  {| draw_radius := 1 / 2; draw_hue := 1 / 2; draw_vx := 1 / 2;
     draw_vy := 1 / 2 |}.

Definition one_body_world : World R :=
  snd (addObjectAt 50 10 middle_draws constructor).

(** Two bodies of radius 10 and mass 2 with centres (100, 100) and (103, 104),
    5 apart, and velocities (3, 1) and (-1, 2). *)
Definition oblique_a : Body R :=
  {| x := 100; y := 100; vx := 3; vy := 1; radius := 10; mass := 2;
     color := Hsl 0 70 60; restitution := 8 / 10; friction := 99 / 100 |}.

Definition oblique_b : Body R :=
  {| x := 103; y := 104; vx := -1; vy := 2; radius := 10; mass := 2;
     color := Hsl 0 70 60; restitution := 8 / 10; friction := 99 / 100 |}.

End Ideal.

(** *** Inputs on binary64 *)

Module Inputs.

Abbreviation float := PrimFloat.float.

(** Decimal literals as the engine reads them. *)
Definition dec (m : Z) (k : nat) : float := lit m k.

Definition is_nan (v : float) : bool := PrimFloat.is_nan v.

(** Draws that give radius 10, hue 0 and velocity (0, 0). *)
Definition still_draws : Draws float :=
  {| draw_radius := dec 0 0; draw_hue := dec 0 0;
     draw_vx := dec 5 1; draw_vy := dec 5 1 |}.

Definition spawn (px py : float) (rnd : Draws float) (w : World float)
  : World float :=
  snd (addObjectAt px py rnd w).

(** Two clicks on the same pixel of the canvas. *)
Definition coincident_world : World float :=
  spawn (dec 300 0) (dec 200 0) still_draws
    (spawn (dec 300 0) (dec 200 0) still_draws constructor).

(** Two clicks 8 pixels apart, next to the left edge. *)
Definition wall_world : World float :=
  spawn (dec 20 0) (dec 200 0) still_draws
    (spawn (dec 12 0) (dec 200 0) still_draws constructor).

(** Fifty clicks. *)
Definition full_world : World float :=
  Nat.iter 50 (spawn (dec 300 0) (dec 200 0) still_draws) constructor.

(** The head-on pair, with the restitution 0.8 that [addObjectAt] gives to
    every body. *)
Definition left_08 : Body float := left_body (dec 8 1).

Definition right_08 : Body float := right_body (dec 8 1).

(** The quotient of two integers below 2^53, correctly rounded. *)
Definition ratio (m n : Z) : float :=
  PrimFloat.div (Float64.of_Z m) (Float64.of_Z n).

(** The largest value that [Math.random()] can return, [1 - 2^-53]. *)
Definition largest_draw : float := ratio 9007199254740991 9007199254740992.

Definition largest_draws : Draws float :=
  {| draw_radius := largest_draw; draw_hue := largest_draw;
     draw_vx := largest_draw; draw_vy := largest_draw |}.

(** One click at [x = 580 + 2^-43], with a draw that gives the radius
    [20 - 2^-44] and the velocity (0, 0). *)
Definition tight_draws : Draws float :=
  {| draw_radius := ratio 3002399751580313 4503599627370496;
     draw_hue := dec 0 0; draw_vx := dec 5 1; draw_vy := dec 5 1 |}.

Definition tight_world : World float :=
  spawn (ratio 5101733952880641 8796093022208) (dec 200 0) tight_draws
    constructor.

(** Two clicks, at (100, 100) and (103, 104), with draws that give radius 10
    and velocities close to (-2, 2) and (4, -3). *)
Definition oblique_world : World float :=
  spawn (dec 103 0) (dec 104 0)
    {| draw_radius := dec 0 0; draw_hue := dec 0 0;
       draw_vx := dec 9 1; draw_vy := dec 2 1 |}
    (spawn (dec 100 0) (dec 100 0)
       {| draw_radius := dec 0 0; draw_hue := dec 0 0;
          draw_vx := dec 3 1; draw_vy := dec 7 1 |}
       constructor).

(** The two bodies as the first loop of [update] leaves them when no time has
    elapsed: the pair that the collision pass then resolves. *)
Definition oblique_pair : Body float * Body float :=
  match move_objects (timestep (dec 0 0)) oblique_world with
  | [a; b] => (a, b)
  | _ => (left_08, right_08)
  end.

(** Whether the exact change of velocity from [o] to [o'] is along the
    direction [(dx, dy)]: [dy * (vx' - vx) = dx * (vy' - vy)]. *)
Definition change_along (dx dy : Z) (o o' : Body float) : option bool :=
  match Float64.exact (vx o), Float64.exact (vy o),
        Float64.exact (vx o'), Float64.exact (vy o') with
  | Some ux, Some uy, Some ux', Some uy' =>
      Some (Qeq_bool (inject_Z dy * (ux' - ux)) (inject_Z dx * (uy' - uy)))
  | _, _, _, _ => None
  end.

End Inputs.

(** ** The render loop of [PhysicsSimulation]

    [start], [stop], [toggle] and [render].  The readings of
    [performance.now()] and the handle returned by [requestAnimationFrame]
    are parameters; the drawing context is taken to exist, as it does once
    [createCanvas] has found its container. *)

Module RenderLoop.

Section RenderLoop.

Context {num : Type} `{JsNumber num}.

Local Open Scope js_scope.

Record Runner := {
  sim : World num;
  isRunning : bool;
  lastTime : num;
  animationId : option nat
}.

(** The fields as the constructor leaves them. *)
Definition new_PhysicsSimulation : Runner :=
  {| sim := constructor; isRunning := false; lastTime := lit 0 0;
     animationId := None |}.

(** [render()], with [now] the reading of the clock and [handle] the request
    for the next frame. *)
Definition render (now : num) (handle : nat) (r : Runner) : Runner :=
  if negb (isRunning r) then r
  else
    let deltaTime := now - lastTime r in
    {| sim := update deltaTime (sim r); isRunning := isRunning r;
       lastTime := now; animationId := Some handle |}.

(** [start()] reads the clock once itself and once more inside [render]. *)
Definition start (now0 now1 : num) (handle : nat) (r : Runner) : Runner :=
  if isRunning r then r
  else
    render now1 handle
      {| sim := sim r; isRunning := true; lastTime := now0;
         animationId := animationId r |}.

(** [stop()]: a handle is dropped when it is truthy, that is, not 0. *)
Definition stop (r : Runner) : Runner :=
  {| sim := sim r; isRunning := false; lastTime := lastTime r;
     animationId := match animationId r with
                    | Some (S _) => None
                    | other => other
                    end |}.

Definition toggle (now0 now1 : num) (handle : nat) (r : Runner) : Runner :=
  if isRunning r then stop r else start now0 now1 handle r.

(** What the page delivers to the simulation: a click on the start/stop
    button, with the two clock readings and the frame handle that [start]
    would use, or a frame callback. *)
Inductive Event :=
| Click (now0 now1 : num) (handle : nat)
| Frame (now : num) (handle : nat).

Definition deliver (r : Runner) (ev : Event) : Runner :=
  match ev with
  | Click now0 now1 handle => toggle now0 now1 handle r
  | Frame now handle => render now handle r
  end.

(** The argument of each call of [update] made while the events are
    delivered, in order. *)
Fixpoint elapsed_times (evs : list Event) (r : Runner) : list num :=
  match evs with
  | [] => []
  | ev :: evs' =>
      match ev with
      | Click now0 now1 _ =>
          if isRunning r then [] else [now1 - now0]
      | Frame now _ =>
          if isRunning r then [now - lastTime r] else []
      end ++ elapsed_times evs' (deliver r ev)
  end.

End RenderLoop.

End RenderLoop.

Arguments RenderLoop.Runner : clear implicits.
Arguments RenderLoop.Event : clear implicits.

(** ** The rest of the page

    The other components of the script use three more operations on
    numbers. *)

Class JsMath (num : Type) `{JsNumber num} := {
  (** [Math.max] of two arguments *)
  Math_max : num -> num -> num;
  (** [Math.abs] *)
  Math_abs : num -> num;
  (** the relational operator [<=]; [a >= b] is [lte b a] *)
  lte : num -> num -> bool
}.

Module Float64Math.

(** [Math.max(a, b)]: NaN if either argument is NaN, and +0 above -0. *)
Definition max (a b : PrimFloat.float) : PrimFloat.float :=
  if (PrimFloat.is_nan a || PrimFloat.is_nan b)%bool then PrimFloat.nan
  else if PrimFloat.ltb a b then b
  else if PrimFloat.ltb b a then a
  else if PrimFloat.get_sign a then b else a.

End Float64Math.

#[export] Instance float_math : JsMath PrimFloat.float := {
  Math_max := Float64Math.max;
  Math_abs := PrimFloat.abs;
  lte := PrimFloat.leb
}.

Module RealMath.

Definition leb (a b : R) : bool := if Rle_dec a b then true else false.

End RealMath.

#[export] Instance real_math : JsMath R := {
  Math_max := Rmax;
  Math_abs := Rabs;
  lte := RealMath.leb
}.

(** The conversion that storing a number into a [Float32Array] applies, read
    back as a number. *)
Class JsFloat32 (num : Type) := {
  Float32 : num -> num
}.

Module Float32.

(** The nearest binary32 value, ties to even: NaN, the infinities and the
    zeros are kept, and a finite number is rounded to 24 bits of precision
    with the exponent range of binary32. *)
Definition of_float64 (v : PrimFloat.float) : PrimFloat.float :=
  match FloatOps.Prim2SF v with
  | SpecFloat.S754_finite s m e =>
      FloatOps.SF2Prim (SpecFloat.binary_round 24 128 s m e)
  | _ => v
  end.

End Float32.

#[export] Instance float_float32 : JsFloat32 PrimFloat.float := {
  Float32 := Float32.of_float64
}.

(** *** utils.clamp and ParallaxManager.updateParallax *)

Module Parallax.

Section Parallax.

Context {num : Type} `{JsMath num}.

Local Open Scope js_scope.

(** [utils.clamp(num, min, max)] *)
Definition clamp (v lo hi : num) : num := Math_min (Math_max v lo) hi.

(** [updateParallax(event)].  [hasElement] tells whether [parallaxElement]
    is set and [reducedMotion] is the answer of [prefersReducedMotion()];
    [beta] and [gamma] are null ([None]) or numbers.  The result is the
    [style.transform] of the element, kept as the two lengths of its
    [translate(..px, ..px)]; the scale is always 1.1. *)
Definition updateParallax (hasElement reducedMotion : bool)
  (beta gamma : option num) (transform : option (num * num))
  : option (num * num) :=
  if (negb hasElement || reducedMotion)%bool then transform
  else
    match beta, gamma with
    | Some beta, Some gamma =>
        let normalizedBeta := clamp beta (lit (-45) 0) (lit 45 0) / lit 45 0 in
        let normalizedGamma := clamp gamma (lit (-45) 0) (lit 45 0) / lit 45 0 in
        let translateX := normalizedGamma * lit 20 0 in
        let translateY := normalizedBeta * lit 20 0 in
        Some (translateX, translateY)
    | _, _ => transform
    end.

End Parallax.

End Parallax.

(** *** ParticleSystem.animate *)

Module ParticleSystem.

Section ParticleSystem.

Context {num : Type} `{JsMath num}.

Local Open Scope js_scope.

Record Particle := {
  x : num;
  y : num;
  vx : num;
  vy : num;
  radius : num;
  opacity : num
}.

(** The body of the [forEach] of [animate], without the drawing. *)
Definition move_particle (width height : num) (p : Particle) : Particle :=
  let x' := x p + vx p in
  let y' := y p + vy p in
  let vx' := if (lte x' (lit 0 0) || lte width x')%bool
             then vx p * lit (-1) 0 else vx p in
  let vy' := if (lte y' (lit 0 0) || lte height y')%bool
             then vy p * lit (-1) 0 else vy p in
  {| x := x'; y := y'; vx := vx'; vy := vy'; radius := radius p;
     opacity := opacity p |}.

(** [animate()]: nothing moves unless the system is running. *)
Definition animate (isRunning : bool) (width height : num)
  (particles : list Particle) : list Particle :=
  if negb isRunning then particles
  else move_particle width height <$> particles.

End ParticleSystem.

End ParticleSystem.

Arguments ParticleSystem.Particle : clear implicits.

(** *** WebGL3D: the vector helpers *)

Module WebGL3D.

Section WebGL3D.

Context {num : Type} `{JsNumber num} `{JsFloat32 num}.

Local Open Scope js_scope.

(** An array of three numbers. *)
Definition Vec3 : Type := num * num * num.

(** [normalize(v)] *)
Definition normalize (v : Vec3) : Vec3 :=
  let '(v0, v1, v2) := v in
  let length := Math_sqrt (v0 * v0 + v1 * v1 + v2 * v2) in
  if length >? lit 0 0 then (v0 / length, v1 / length, v2 / length)
  else (lit 0 0, lit 0 0, lit 0 0).

(** [cross(a, b)] *)
Definition cross (a b : Vec3) : Vec3 :=
  let '(a0, a1, a2) := a in
  let '(b0, b1, b2) := b in
  (a1 * b2 - a2 * b1, a2 * b0 - a0 * b2, a0 * b1 - a1 * b0).

(** The three axes that [createLookAtMatrix(eye, target, up)] computes. *)
Definition lookAtAxes (eye target up : Vec3) : Vec3 * Vec3 * Vec3 :=
  let '(e0, e1, e2) := eye in
  let '(t0, t1, t2) := target in
  let zAxis := normalize (e0 - t0, e1 - t1, e2 - t2) in
  let xAxis := normalize (cross up zAxis) in
  let yAxis := cross zAxis xAxis in
  (xAxis, yAxis, zAxis).

(** [new Float32Array(entries)]: every entry is converted to binary32. *)
Definition Float32Array (entries : list num) : list num :=
  Float32 <$> entries.

(** [createLookAtMatrix(eye, target, up)] *)
Definition createLookAtMatrix (eye target up : Vec3) : list num :=
  let '(xAxis, yAxis, zAxis) := lookAtAxes eye target up in
  let '(x0, x1, x2) := xAxis in
  let '(y0, y1, y2) := yAxis in
  let '(z0, z1, z2) := zAxis in
  let '(e0, e1, e2) := eye in
  Float32Array
    [x0; x1; x2; lit 0 0;
     y0; y1; y2; lit 0 0;
     z0; z1; z2; lit 0 0;
     e0; e1; e2; lit 1 0].

End WebGL3D.

End WebGL3D.

(** *** Carousel *)

Module Carousel.

Section Carousel.

Context {num : Type} `{JsMath num}.

Local Open Scope js_scope.

(** The fields of the carousel and what it writes to the page: the
    percentage of the [translateX] of the track ([trackOffset]), whether the
    track animates ([transition]), the [active] class of the indicators and
    the [aria-hidden] of the slides.  [slides] is [this.slides.length]; the
    index and [translateX] hold integers. *)
Record State := {
  slides : nat;
  currentIndex : Z;
  isPointerDown : bool;
  startX : num;
  currentX : num;
  translateX : Z;
  trackOffset : num;
  transition : bool;
  active : list bool;
  ariaHidden : list bool
}.

(** [index === this.currentIndex], for each slide. *)
Definition marks (n : nat) (index : Z) : list bool :=
  (fun i => Z.of_nat i =? index)%Z <$> seq 0 n.

(** [updateCarousel()], with [updateIndicators] and [updateAriaLabels]. *)
Definition updateCarousel (c : State) : State :=
  let translateX' := (- currentIndex c * 100)%Z in
  {| slides := slides c; currentIndex := currentIndex c;
     isPointerDown := isPointerDown c; startX := startX c;
     currentX := currentX c; translateX := translateX';
     trackOffset := lit translateX' 0; transition := true;
     active := marks (slides c) (currentIndex c);
     ariaHidden := negb <$> marks (slides c) (currentIndex c) |}.

Definition set_currentIndex (i : Z) (c : State) : State :=
  {| slides := slides c; currentIndex := i;
     isPointerDown := isPointerDown c; startX := startX c;
     currentX := currentX c; translateX := translateX c;
     trackOffset := trackOffset c; transition := transition c;
     active := active c; ariaHidden := ariaHidden c |}.

(** The carousel after [init()], for a track with [n] slides, [n] not 0
    (with no slide [init] returns before it binds any event). *)
Definition init (n : nat) : State :=
  updateCarousel
    {| slides := n; currentIndex := 0; isPointerDown := false;
       startX := lit 0 0; currentX := lit 0 0; translateX := 0;
       trackOffset := lit 0 0; transition := false; active := [];
       ariaHidden := [] |}.

(** [next()]; the remainder of JavaScript takes the sign of the dividend. *)
Definition next (c : State) : State :=
  updateCarousel
    (set_currentIndex (Z.rem (currentIndex c + 1) (Z.of_nat (slides c))) c).

(** [prev()] *)
Definition prev (c : State) : State :=
  updateCarousel
    (set_currentIndex
       (Z.rem (currentIndex c - 1 + Z.of_nat (slides c)) (Z.of_nat (slides c)))
       c).

(** The click handler of indicator [index]. *)
Definition goTo (index : nat) (c : State) : State :=
  updateCarousel (set_currentIndex (Z.of_nat index) c).

(** [handleStart(e)], with [ex] the result of [getEventX(e)]. *)
Definition handleStart (ex : num) (c : State) : State :=
  {| slides := slides c; currentIndex := currentIndex c;
     isPointerDown := true; startX := ex; currentX := ex;
     translateX := translateX c; trackOffset := trackOffset c;
     transition := false; active := active c; ariaHidden := ariaHidden c |}.

(** [handleMove(e)], with [offsetWidth] the width of the container. *)
Definition handleMove (ex offsetWidth : num) (c : State) : State :=
  if negb (isPointerDown c) then c
  else
    let deltaX := ex - startX c in
    let movePercentage := (deltaX / offsetWidth) * lit 100 0 in
    {| slides := slides c; currentIndex := currentIndex c;
       isPointerDown := isPointerDown c; startX := startX c;
       currentX := ex; translateX := translateX c;
       trackOffset := lit (translateX c) 0 + movePercentage;
       transition := transition c; active := active c;
       ariaHidden := ariaHidden c |}.

(** [handleEnd(e)] *)
Definition handleEnd (offsetWidth : num) (c : State) : State :=
  if negb (isPointerDown c) then c
  else
    let c := {| slides := slides c; currentIndex := currentIndex c;
                isPointerDown := false; startX := startX c;
                currentX := currentX c; translateX := translateX c;
                trackOffset := trackOffset c; transition := transition c;
                active := active c; ariaHidden := ariaHidden c |} in
    let deltaX := currentX c - startX c in
    let threshold := offsetWidth * lit 2 1 in
    if Math_abs deltaX >? threshold then
      if deltaX >? lit 0 0 then prev c else next c
    else updateCarousel c.

(** What the page delivers to a carousel. *)
Inductive Event :=
| PointerDown (ex : num)
| PointerMove (ex offsetWidth : num)
| PointerUp (offsetWidth : num)
| ArrowLeft
| ArrowRight
| IndicatorClick (index : nat).

Definition deliver (c : State) (ev : Event) : State :=
  match ev with
  | PointerDown ex => handleStart ex c
  | PointerMove ex offsetWidth => handleMove ex offsetWidth c
  | PointerUp offsetWidth => handleEnd offsetWidth c
  | ArrowLeft => prev c
  | ArrowRight => next c
  | IndicatorClick index => goTo index c
  end.

(** An indicator exists for each slide, and for nothing else. *)
Definition possible (n : nat) (ev : Event) : Prop :=
  match ev with
  | IndicatorClick index => index < n
  | _ => True
  end.

(** What every state of a carousel with [n] slides satisfies. *)
Definition consistent (n : nat) (c : State) : Prop :=
  slides c = n
  /\ (0 <= currentIndex c < Z.of_nat n)%Z
  /\ translateX c = (- currentIndex c * 100)%Z
  /\ active c = marks n (currentIndex c)
  /\ ariaHidden c = negb <$> marks n (currentIndex c).

End Carousel.

End Carousel.

Arguments Carousel.State : clear implicits.
Arguments Carousel.Event : clear implicits.

(** *** ThemeManager *)

Module ThemeManager.

Local Open Scope string_scope.

(** What the theme code reads from the browser: whether [localStorage]
    works ([features.localStorage]) and whether the system prefers a light
    scheme. *)
Record Browser := {
  localStorageWorks : bool;
  prefersLight : bool
}.

(** [currentTheme], the [theme] item of [localStorage], the class of the
    document element, and the [aria-pressed] and the text of the button. *)
Record State := {
  currentTheme : string;
  stored : option string;
  className : string;
  ariaPressed : bool;
  textContent : string
}.

(** [utils.getStoredTheme()] *)
Definition getStoredTheme (b : Browser) (s : State) : option string :=
  if negb (localStorageWorks b) then None else stored s.

(** A string is truthy when it is not empty; null is falsy. *)
Definition truthy (v : option string) : bool :=
  match v with
  | Some t => negb (String.eqb t "")
  | None => false
  end.

(** [detectTheme()] *)
Definition detectTheme (b : Browser) (s : State) : string :=
  match getStoredTheme b s with
  | Some t => if truthy (Some t) then t
              else if prefersLight b then "light" else "dark"
  | None => if prefersLight b then "light" else "dark"
  end.

(** [applyTheme(theme)] *)
Definition applyTheme (theme : string) (s : State) : State :=
  {| currentTheme := theme;
     stored := stored s;
     className := if String.eqb theme "light" then "light" else "";
     ariaPressed := String.eqb theme "light";
     textContent := "Switch to "
                    ++ (if String.eqb theme "light" then "dark" else "light")
                    ++ " theme" |}.

(** [utils.setStoredTheme(theme)] *)
Definition setStoredTheme (b : Browser) (theme : string) (s : State) : State :=
  if localStorageWorks b then
    {| currentTheme := currentTheme s; stored := Some theme;
       className := className s; ariaPressed := ariaPressed s;
       textContent := textContent s |}
  else s.

(** [toggle()] *)
Definition toggle (b : Browser) (s : State) : State :=
  let newTheme := if String.eqb (currentTheme s) "light" then "dark"
                  else "light" in
  setStoredTheme b newTheme (applyTheme newTheme s).

(** The listener for changes of the system scheme, [matches] being
    [e.matches]. *)
Definition systemChange (b : Browser) (matches : bool) (s : State) : State :=
  if negb (truthy (getStoredTheme b s)) then
    applyTheme (if matches then "light" else "dark") s
  else s.

(** The state after the constructor, on a page whose storage holds
    [item]. *)
Definition load (b : Browser) (item : option string) : State :=
  let s := {| currentTheme := ""; stored := item; className := "";
              ariaPressed := false; textContent := "" |} in
  applyTheme (detectTheme b s) s.

End ThemeManager.

(** *** MobileNav *)

Module MobileNav.

Local Open Scope string_scope.

Record State := {
  isOpen : bool;
  navOpen : bool;
  menuToggleOpen : bool;
  ariaExpanded : string;
  ariaLabel : string
}.

(** After the constructor, on a page with a header and a navigation. *)
Definition init : State :=
  {| isOpen := false; navOpen := false; menuToggleOpen := false;
     ariaExpanded := "false"; ariaLabel := "Toggle navigation menu" |}.

Definition open (s : State) : State :=
  {| isOpen := true; navOpen := true; menuToggleOpen := true;
     ariaExpanded := "true"; ariaLabel := "Close navigation menu" |}.

Definition close (s : State) : State :=
  {| isOpen := false; navOpen := false; menuToggleOpen := false;
     ariaExpanded := "false"; ariaLabel := "Open navigation menu" |}.

Definition toggle (s : State) : State :=
  if isOpen s then close s else open s.

(** The listeners of [bindEvents]: a click on the menu button, a click
    somewhere in the document ([inHeader] tells whether the header contains
    the target), a key. *)
Inductive Event :=
| MenuClick
| DocumentClick (inHeader : bool)
| KeyDown (key : string).

(** The page agrees with [isOpen]. *)
Definition consistent (s : State) : Prop :=
  navOpen s = isOpen s
  /\ menuToggleOpen s = isOpen s
  /\ ariaExpanded s = (if isOpen s then "true" else "false").

Definition deliver (s : State) (ev : Event) : State :=
  match ev with
  | MenuClick => toggle s
  | DocumentClick inHeader =>
      if (isOpen s && negb inHeader)%bool then close s else s
  | KeyDown key =>
      if (String.eqb key "Escape" && isOpen s)%bool then close s else s
  end.

End MobileNav.

(** *** Measures over the real numbers *)

Module Measures.

Import RenderLoop.

Local Open Scope R_scope.

(** Twice the kinetic energy of a pair. *)
Definition twice_kinetic_energy (a b : Body R) : R :=
  mass a * (vx a * vx a + vy a * vy a) + mass b * (vx b * vx b + vy b * vy b).

(** A body that does not move and lies inside the canvas. *)
Definition at_rest (c : Canvas R) (o : Body R) : Prop :=
  vx o = 0 /\ vy o = 0 /\ Ideal.in_bounds c o.

(** A body past the left edge and the bottom edge of the 600 by 400 canvas,
    moving outwards. *)
Definition corner_body : Body R :=
  {| x := 5; y := 395; vx := -3; vy := 4; radius := 10; mass := 2;
     color := Hsl 0 70 60; restitution := 8 / 10; friction := 99 / 100 |}.

(** A body lying still in the middle of the canvas. *)
Definition still_body : Body R :=
  {| x := 300; y := 200; vx := 0; vy := 0; radius := 10; mass := 2;
     color := Hsl 0 70 60; restitution := 8 / 10; friction := 99 / 100 |}.

(** The readings of a clock that never runs backwards, [prev] being the
    reading before the first event. *)
Fixpoint monotone_clock (prev : R) (evs : list (Event R)) : Prop :=
  match evs with
  | [] => True
  | Click now0 now1 _ :: evs' =>
      prev <= now0 /\ now0 <= now1 /\ monotone_clock now1 evs'
  | Frame now _ :: evs' => prev <= now /\ monotone_clock now evs'
  end.

(** The scalar product of two arrays of three numbers. *)
Definition dot (a b : @WebGL3D.Vec3 R) : R :=
  let '(a0, a1, a2) := a in
  let '(b0, b1, b2) := b in
  a0 * b0 + a1 * b1 + a2 * b2.

(** The conversion of the three entries of an array. *)
Definition round_each (round32 : R -> R) (v : @WebGL3D.Vec3 R)
  : @WebGL3D.Vec3 R :=
  let '(v0, v1, v2) := v in (round32 v0, round32 v1, round32 v2).

(** The entry [i] of a matrix of sixteen numbers. *)
Definition entry (m : list R) (i : nat) : R := default 0 (m !! i).

(** The rotation part of the matrix that [createLookAtMatrix] returns: the
    first three entries of each of its first three rows. *)
Definition rotation (m : list R)
  : @WebGL3D.Vec3 R * @WebGL3D.Vec3 R * @WebGL3D.Vec3 R :=
  ((entry m 0, entry m 1, entry m 2),
   (entry m 4, entry m 5, entry m 6),
   (entry m 8, entry m 9, entry m 10)).

(** A carousel of three slides showing the second one. *)
Definition second_of_three : Carousel.State R := Carousel.next (Carousel.init 3).

End Measures.

(** *** A view matrix on binary64 *)

Module Camera.

Import PrimFloat.

(** The view from (1, 2, 3) to the origin, with (0, 1, 0) up. *)
Definition oblique_view : list float :=
  WebGL3D.createLookAtMatrix
    (Inputs.dec 1 0, Inputs.dec 2 0, Inputs.dec 3 0)
    (Inputs.dec 0 0, Inputs.dec 0 0, Inputs.dec 0 0)
    (Inputs.dec 0 0, Inputs.dec 1 0, Inputs.dec 0 0).

(** Its sixteen entries, each of them a binary32 value. *)
Definition oblique_view_entries : list float :=
  [0x1.e5b9d2p-1; 0; -0x1.43d136p-2; 0;
   -0x1.5a2cd8p-3; 0x1.b0b80ep-1; -0x1.03a1a2p-1; 0;
   0x1.11aceep-2; 0x1.11aceep-1; 0x1.9a8366p-1; 0;
   1; 2; 3; 1]%float.

Definition exact_entry (m : list float) (i : nat) : option Q :=
  match m !! i with
  | Some v => Float64.exact v
  | None => None
  end.

(** The exact scalar product of the rows [i] and [j] of the rotation part. *)
Definition exact_dot (m : list float) (i j : nat) : option Q :=
  match exact_entry m (4 * i), exact_entry m (4 * i + 1),
        exact_entry m (4 * i + 2), exact_entry m (4 * j),
        exact_entry m (4 * j + 1), exact_entry m (4 * j + 2) with
  | Some a0, Some a1, Some a2, Some b0, Some b1, Some b2 =>
      Some (a0 * b0 + a1 * b1 + a2 * b2)%Q
  | _, _, _, _, _, _ => None
  end.

(** The rows of the rotation part have length 1 and are orthogonal to each
    other, each scalar product being exact to within [tol]. *)
Definition orthonormal_within (tol : Q) (m : list float) : bool :=
  forallb
    (fun ij : nat * nat =>
       match exact_dot m (fst ij) (snd ij) with
       | Some d =>
           Qle_bool
             (Qabs (d - (if Nat.eqb (fst ij) (snd ij) then 1 else 0)))
             tol
       | None => false
       end)
    [(0, 0); (0, 1); (0, 2); (1, 1); (1, 2); (2, 2)]%nat.

End Camera.

(** * Theory *)

(** ** The loops of [update] *)

Section Loops.

Context {num : Type} `{JsNumber num}.

Lemma for_loop_invariant {St : Type} (P : St -> Prop) (body : nat -> St -> St)
  (start count : nat) (s : St) :
  P s ->
  (forall i s', start <= i < start + count -> P s' -> P (body i s')) ->
  P (for_loop start count body s).
Proof.
  revert start s. induction count as [|c IH]; intros start s Hs Hbody; simpl.
  - exact Hs.
  - apply IH.
    + apply Hbody; [lia | exact Hs].
    + intros i s' Hi. apply Hbody. lia.
Qed.

Lemma for_loop_fold {St : Type} (body : nat -> St -> St) (start count : nat)
  (s : St) :
  for_loop start count body s = fold_left (fun s' i => body i s') (seq start count) s.
Proof.
  revert start s. induction count as [|c IH]; intros start s; simpl; [reflexivity|].
  apply IH.
Qed.

(** A loop that rewrites slot [i] at step [i] is a map. *)
Lemma for_loop_map (g : Body num -> Body num) (done todo : list (Body num)) :
  for_loop (length done) (length todo)
    (fun i objs =>
       match objs !! i with
       | Some obj => <[i := g obj]> objs
       | None => objs
       end)
    (done ++ todo)
  = done ++ (g <$> todo).
Proof.
  revert done. induction todo as [|o todo IH]; intros done; simpl.
  - reflexivity.
  - rewrite list_lookup_middle by reflexivity.
    replace (<[length done := g o]> (done ++ o :: todo))
      with ((done ++ [g o]) ++ todo).
    + replace (S (length done)) with (length (done ++ [g o]))
        by (rewrite length_app; simpl; lia).
      rewrite IH. rewrite <- app_assoc. reflexivity.
    + rewrite <- app_assoc, insert_app_r_alt, Nat.sub_diag by lia.
      reflexivity.
Qed.

Lemma move_objects_map (dt : num) (w : World num) :
  move_objects dt w = (fun obj => boundary w (integrate w dt obj)) <$> objects w.
Proof.
  unfold move_objects.
  apply (for_loop_map (fun obj => boundary w (integrate w dt obj)) [] (objects w)).
Qed.

Lemma integrate_static (w : World num) (dt : num) (o : Body num) :
  static (integrate w dt o) = static o.
Proof. unfold integrate. destruct (gravityEnabled w); reflexivity. Qed.

Lemma boundary_static (w : World num) (o : Body num) :
  static (boundary w o) = static o.
Proof.
  unfold boundary.
  repeat match goal with
         | |- context [if ?c then _ else _] => destruct c
         end; reflexivity.
Qed.

Lemma checkCollision_static (a b : Body num) :
  static (fst (checkCollision a b)) = static a
  /\ static (snd (checkCollision a b)) = static b.
Proof.
  unfold checkCollision.
  repeat match goal with
         | |- context [if ?c then _ else _] => destruct c
         end; split; reflexivity.
Qed.

Lemma insert_same_static (l : list (Body num)) (i : nat) (o o' : Body num) :
  l !! i = Some o -> static o' = static o ->
  static <$> <[i := o']> l = static <$> l.
Proof.
  intros Hl Hs. rewrite list_fmap_insert. apply list_insert_id.
  rewrite list_lookup_fmap, Hl, Hs. reflexivity.
Qed.

Lemma collide_at_static (i j : nat) (l : list (Body num)) :
  static <$> collide_at i j l = static <$> l.
Proof.
  unfold collide_at.
  destruct (l !! i) as [a|] eqn:Hi; [|reflexivity].
  destruct (l !! j) as [b|] eqn:Hj; [|reflexivity].
  destruct (checkCollision_static a b) as [Ha Hb].
  destruct (checkCollision a b) as [a' b']; simpl in *.
  assert (Hfirst : static <$> <[i := a']> l = static <$> l)
    by (eapply insert_same_static; eauto).
  destruct (<[i := a']> l !! j) as [c|] eqn:Hc.
  - rewrite (insert_same_static _ j c b'); [exact Hfirst|exact Hc|].
    rewrite Hb.
    assert (Hm : (static <$> <[i := a']> l) !! j = (static <$> l) !! j)
      by (rewrite Hfirst; reflexivity).
    rewrite !list_lookup_fmap, Hc, Hj in Hm. simpl in Hm. congruence.
  - apply lookup_ge_None_1 in Hc. rewrite list_insert_ge by exact Hc.
    exact Hfirst.
Qed.

Lemma collide_objects_static (l : list (Body num)) :
  static <$> collide_objects l = static <$> l.
Proof.
  unfold collide_objects.
  apply (for_loop_invariant (fun s => static <$> s = static <$> l)); [reflexivity|].
  intros i s _ Hs.
  apply (for_loop_invariant (fun s' => static <$> s' = static <$> l)); [exact Hs|].
  intros j s' _ Hs'. rewrite collide_at_static. exact Hs'.
Qed.

Lemma move_objects_static (dt : num) (w : World num) :
  static <$> move_objects dt w = static <$> objects w.
Proof.
  rewrite move_objects_map, <- list_fmap_compose.
  apply list_fmap_ext. intros i o _. simpl.
  rewrite boundary_static. apply integrate_static.
Qed.

Lemma update_static (e : num) (w : World num) :
  static <$> objects (update e w) = static <$> objects w.
Proof.
  unfold update. simpl. rewrite collide_objects_static.
  apply move_objects_static.
Qed.

(** A property of the static part passes between lists with the same static
    parts. *)
Lemma Forall_static (P : Body num -> Prop) (l1 l2 : list (Body num)) :
  (forall o o', static o = static o' -> P o' -> P o) ->
  static <$> l1 = static <$> l2 ->
  Forall P l2 -> Forall P l1.
Proof.
  intros HP. revert l2.
  induction l1 as [|o l1 IH]; intros [|o' l2] Heq Hl2;
    try discriminate; [constructor|].
  assert (Ho : static o = static o')
    by (apply (f_equal head) in Heq; simpl in Heq; congruence).
  assert (Hl : static <$> l1 = static <$> l2)
    by (apply (f_equal tail) in Heq; exact Heq).
  inversion Hl2 as [|? ? Ho' Hl2']; subst.
  constructor; [exact (HP o o' Ho Ho')|exact (IH l2 Hl Hl2')].
Qed.

Lemma update_length (e : num) (w : World num) :
  length (objects (update e w)) = length (objects w).
Proof.
  rewrite <- (length_fmap static), update_static. apply length_fmap.
Qed.

End Loops.

(** ** The phases of a step, as the design document words them *)

Section Phases.

Context {num : Type} `{JsNumber num}.

Lemma fold_left_fmap {A B C : Type} (g : A -> B -> A) (h : C -> B)
  (l : list C) (a : A) :
  fold_left g (h <$> l) a = fold_left (fun a' c => g a' (h c)) l a.
Proof. revert a. induction l as [|c l IH]; intros a; simpl; [reflexivity|apply IH]. Qed.

Lemma collide_at_length (i j : nat) (l : list (Body num)) :
  length (collide_at i j l) = length l.
Proof.
  rewrite <- (length_fmap static), collide_at_static. apply length_fmap.
Qed.

Lemma collide_rows (n : nat) (rows : list nat) (l : list (Body num)) :
  length l = n ->
  fold_left
    (fun s i => for_loop (S i) (length s - S i) (fun j s' => collide_at i j s') s)
    rows l
  = fold_left (fun s p => collide_at (fst p) (snd p) s)
      (flat_map (fun i => pair i <$> seq (S i) (n - S i)) rows) l.
Proof.
  revert l. induction rows as [|i rows IH]; intros l Hl; simpl; [reflexivity|].
  rewrite fold_left_app, fold_left_fmap, Hl. simpl.
  rewrite <- for_loop_fold. apply IH.
  apply (for_loop_invariant (fun s => length s = n)); [exact Hl|].
  intros j s' _ Hs'. rewrite collide_at_length. exact Hs'.
Qed.

Lemma collide_objects_pairs (l : list (Body num)) :
  collide_objects l = CollisionResolver l.
Proof.
  unfold collide_objects, CollisionResolver, ascending_pairs.
  rewrite for_loop_fold. apply collide_rows. reflexivity.
Qed.

End Phases.

(** ** States reachable through the public operations *)

Section Reachability.

Context {num : Type} `{JsNumber num}.

Local Open Scope js_scope.

Lemma addObjectAt_full (px py : num) (rnd : Draws num) (w : World num) :
  50 <= length (objects w) -> addObjectAt px py rnd w = (JsUndefined, w).
Proof.
  intros Hfull. unfold addObjectAt.
  destruct (Nat.leb_spec 50 (length (objects w))); [reflexivity|lia].
Qed.

Lemma addObjectAt_returns (px py : num) (rnd : Draws num) (w : World num) :
  fst (addObjectAt px py rnd w) = JsUndefined.
Proof. unfold addObjectAt. destruct (50 <=? _); reflexivity. Qed.

Lemma reachable_length (w : World num) :
  reachable w -> length (objects w) <= 50.
Proof.
  induction 1 as [|w px py rnd _ IH _|w _ IH|w _ IH|w e _ IH].
  - simpl. lia.
  - unfold addObjectAt.
    destruct (Nat.leb_spec 50 (length (objects w))); simpl; [exact IH|].
    rewrite length_app. simpl. lia.
  - exact IH.
  - simpl. lia.
  - rewrite update_length. exact IH.
Qed.

End Reachability.

(** ** The geometry of a pair *)

Section Pairs.

Context {num : Type} `{JsNumber num}.

Local Open Scope js_scope.

Lemma checkCollision_apart (a b : Body num) :
  overlapping a b = false -> checkCollision a b = (a, b).
Proof.
  unfold overlapping, distance, checkCollision. intros ->. reflexivity.
Qed.

(** The velocity response of [checkCollision], on any instance of the
    numbers. *)
Lemma checkCollision_velocity (a b : Body num) :
  overlapping a b = true ->
  let nx := normalX a b in
  let ny := normalY a b in
  let a' := fst (checkCollision a b) in
  let b' := snd (checkCollision a b) in
  if relativeSpeed nx ny a b >? lit 0 0 then
    vx a' = vx a /\ vy a' = vy a /\ vx b' = vx b /\ vy b' = vy b
  else
    vx a' = vx a + impulse a b * mass b * nx
    /\ vy a' = vy a + impulse a b * mass b * ny
    /\ vx b' = vx b - impulse a b * mass a * nx
    /\ vy b' = vy b - impulse a b * mass a * ny.
Proof.
  unfold overlapping, impulse, relativeSpeed, normalX, normalY, distance,
    checkCollision.
  intros ->. cbn [set_x set_y set_vx set_vy x y vx vy mass restitution].
  destruct (lt _ _); cbn; repeat split; reflexivity.
Qed.

(** The positional correction of [checkCollision], on any instance of the
    numbers: both exits of the overlapping branch leave the same positions. *)
Lemma checkCollision_position (a b : Body num) :
  overlapping a b = true ->
  let nx := normalX a b in
  let ny := normalY a b in
  let overlap := radius a + radius b - distance a b in
  let move1 := overlap * (mass b / (mass a + mass b)) in
  let move2 := overlap * (mass a / (mass a + mass b)) in
  let a' := fst (checkCollision a b) in
  let b' := snd (checkCollision a b) in
  x a' = x a - nx * move1 /\ y a' = y a - ny * move1
  /\ x b' = x b + nx * move2 /\ y b' = y b + ny * move2.
Proof.
  unfold overlapping, normalX, normalY, distance, checkCollision.
  intros ->. cbn [set_x set_y set_vx set_vy x y vx vy mass radius].
  destruct (lt _ _); cbn; repeat split; reflexivity.
Qed.

Lemma collide_at_apart (i j : nat) (l : list (Body num)) :
  (forall a b, l !! i = Some a -> l !! j = Some b -> overlapping a b = false) ->
  collide_at i j l = l.
Proof.
  intros Hfar. unfold collide_at.
  destruct (l !! i) as [a|] eqn:Hi; [|reflexivity].
  destruct (l !! j) as [b|] eqn:Hj; [|reflexivity].
  rewrite (checkCollision_apart a b) by (apply Hfar; reflexivity).
  rewrite (list_insert_id l i a Hi). apply list_insert_id, Hj.
Qed.

Lemma collide_objects_apart (l : list (Body num)) :
  no_overlap l -> collide_objects l = l.
Proof.
  intros Hfar. unfold collide_objects.
  apply (for_loop_invariant (fun s => s = l)); [reflexivity|].
  intros i s _ ->.
  apply (for_loop_invariant (fun s => s = l)); [reflexivity|].
  intros j s Hj ->. apply collide_at_apart.
  intros a b Ha Hb. apply (Hfar i j); [lia|exact Ha|exact Hb].
Qed.

(** Whatever the numbers, a body leaves the boundary tests of [update] in a
    position that the tests accept, or where they put it. *)
Lemma boundary_contained (w : World num) (o : Body num) :
  contained (canvas w) (boundary w o).
Proof.
  unfold contained, settled, boundary. cbv zeta.
  repeat match goal with
    | |- context [if ?c then _ else _] =>
        lazymatch c with
        | context [if _ then _ else _] => fail
        | _ => idtac
        end;
        let C := fresh "C" in
        destruct c eqn:C;
        cbn [x y vx vy radius restitution set_x set_y set_vx set_vy] in *
    end;
    split;
    first [ left; reflexivity
          | right; split;
            [assumption | first [left; reflexivity | right; assumption]] ].
Qed.

Lemma move_objects_contained (dt : num) (w : World num) :
  Forall (contained (canvas w)) (move_objects dt w).
Proof.
  rewrite move_objects_map, Forall_fmap. apply Forall_forall.
  intros o _. apply boundary_contained.
Qed.

Lemma single_apart (l : list (Body num)) : length l = 1 -> no_overlap l.
Proof.
  intros Hlen i j a b Hij _ Hj. apply lookup_lt_Some in Hj. lia.
Qed.

End Pairs.

(** ** Properties of a step on every instance of the numbers *)

Section Step.

Context {num : Type} `{JsNumber num}.

Local Open Scope js_scope.

(** C4: the integrator adds [gravity * dt] to the velocity when gravity is
    enabled, then multiplies the velocity by the friction, then adds
    [velocity * dt] to the position, and the first loop of [update] applies
    it to every body before the boundary clamp.  With gravity disabled the
    new velocity is the old one times the friction. *)
Theorem integrate_order (w : World num) (dt : num) (o : Body num) :
  let vx' := (if gravityEnabled w then vx o + gravity_x (gravity w) * dt
              else vx o) * friction o in
  let vy' := (if gravityEnabled w then vy o + gravity_y (gravity w) * dt
              else vy o) * friction o in
  integrate w dt o
  = {| x := x o + vx' * dt; y := y o + vy' * dt; vx := vx'; vy := vy';
       radius := radius o; mass := mass o; color := color o;
       restitution := restitution o; friction := friction o |}
  /\ move_objects dt w
     = (fun obj => boundary w (integrate w dt obj)) <$> objects w
  /\ (gravityEnabled w = false ->
      vx (integrate w dt o) = vx o * friction o
      /\ vy (integrate w dt o) = vy o * friction o).
Proof.
  split; [|split; [apply move_objects_map|]].
  - unfold integrate. destruct (gravityEnabled w); reflexivity.
  - intros Hoff. unfold integrate. rewrite Hoff. split; reflexivity.
Qed.

(** C8: [update] is the phased step: the Integrator over all bodies, then the
    BoundaryResolver over all bodies, then the CollisionResolver over the
    ascending pairs. *)
Theorem update_is_phased (e : num) (w : World num) :
  update e w = step_phased (timestep e) w.
Proof.
  unfold update, step_phased, BoundaryResolver, Integrator.
  rewrite move_objects_map, collide_objects_pairs, <- list_fmap_compose.
  reflexivity.
Qed.

(** C10: [update] keeps the number of bodies and the radius, mass, colour,
    restitution and friction of each of them, and leaves the gravity vector,
    the gravity flag and the canvas as they were. *)
Theorem update_frame (e : num) (w : World num) :
  length (objects (update e w)) = length (objects w)
  /\ static <$> objects (update e w) = static <$> objects w
  /\ gravity (update e w) = gravity w
  /\ gravityEnabled (update e w) = gravityEnabled w
  /\ canvas (update e w) = canvas w
  /\ objectCount (update e w) = objectCount w.
Proof.
  split; [apply update_length|]. split; [apply update_static|].
  repeat split; reflexivity.
Qed.

(** C6 (amended): with 50 bodies [addObjectAt] takes its early exit: it
    completes with [undefined] and leaves the whole state as it was; and no
    sequence of public operations brings the number of bodies above 50. *)
Theorem population_cap (w : World num) :
  (length (objects w) = 50 ->
   forall px py rnd, addObjectAt px py rnd w = (JsUndefined, w))
  /\ (reachable w -> length (objects w) <= 50).
Proof.
  split.
  - intros Hfull px py rnd. apply addObjectAt_full. lia.
  - apply reachable_length.
Qed.

End Step.

(** ** The simulation over the real numbers *)

Module OverReals.

Import Ideal.

Local Open Scope R_scope.

Lemma ltb_true (a b : R) : Real.ltb a b = true <-> a < b.
Proof. unfold Real.ltb. destruct (Rlt_dec a b); split; (lra || discriminate || auto). Qed.

Lemma ltb_false (a b : R) : Real.ltb a b = false <-> b <= a.
Proof. unfold Real.ltb. destruct (Rlt_dec a b); split; (lra || discriminate || auto). Qed.

Lemma lit_integer (m : Z) : Real.lit m 0 = IZR m.
Proof. unfold Real.lit. change (10 ^ Z.of_nat 0)%Z with 1%Z. apply Rdiv_1_r. Qed.

(** Unfold the operations of the interface to those of [R], and the decimal
    literals to integers and quotients of integers. *)
Ltac real_ops :=
  cbn [add sub mul div neg Math_sqrt Math_min lt lit real_number] in *;
  rewrite ?lit_integer in *;
  repeat match goal with
    | |- context [Real.lit ?m ?k] =>
        let v := eval vm_compute in (10 ^ Z.of_nat k)%Z in
        change (Real.lit m k) with (IZR m / IZR v)
    | Hyp : context [Real.lit ?m ?k] |- _ =>
        let v := eval vm_compute in (10 ^ Z.of_nat k)%Z in
        change (Real.lit m k) with (IZR m / IZR v) in Hyp
    end.

Lemma timestep_real (e : R) : timestep e = Rmin (e / (1667 / 100)) 2.
Proof. unfold timestep. real_ops. reflexivity. Qed.

Lemma sum_squares_nonneg (u v : R) : 0 <= u * u + v * v.
Proof. nra. Qed.

Lemma distance_sqr (a b : Body R) :
  distance a b * distance a b
  = (x b - x a) * (x b - x a) + (y b - y a) * (y b - y a).
Proof. unfold distance. real_ops. apply sqrt_sqrt, sum_squares_nonneg. Qed.

Lemma distance_nonneg (a b : Body R) : 0 <= distance a b.
Proof. unfold distance. real_ops. apply sqrt_pos. Qed.

(** The collision normal of two distinct centres is a unit vector. *)
Lemma normal_unit (a b : Body R) :
  0 < distance a b ->
  normalX a b * normalX a b + normalY a b * normalY a b = 1.
Proof.
  intros Hd. unfold normalX, normalY. real_ops.
  pose proof (distance_sqr a b) as Hs. real_ops.
  field_simplify_eq; [|lra]. nra.
Qed.

(** C5: for every elapsed time passed to [update], the timestep factor
    [Math.min(deltaTime / 16.67, 2)] is the clamp of [deltaTime / 16.67] to the
    interval from 0 to 2: it is not negative and does not exceed 2.  The
    elapsed times that reach [update] are differences of readings of
    [performance.now()] taken by [render], hence not negative; the upper bound
    needs no hypothesis. *)
Theorem timestep_is_upper_clamp (e : R) :
  timestep e <= 2
  /\ (0 <= e -> timestep e = clamp (e / (1667 / 100)) 0 2 /\ 0 <= timestep e).
Proof.
  rewrite timestep_real. unfold clamp.
  split; [apply Rmin_r|]. intros He.
  assert (Hq : 0 <= e / (1667 / 100)) by lra.
  assert (Hm : 0 <= Rmin (e / (1667 / 100)) 2) by (apply Rmin_glb; lra).
  split; [|exact Hm]. symmetry. apply Rmax_right. exact Hm.
Qed.

Lemma timestep_is_upper_clamp_witness :
  0 <= 1667 / 100
  /\ timestep (1667 / 100) = clamp ((1667 / 100) / (1667 / 100)) 0 2
  /\ 0 <= timestep (1667 / 100) <= 2.
Proof.
  destruct (timestep_is_upper_clamp (1667 / 100)) as [Hle Hclamp].
  assert (Hpos : 0 <= 1667 / 100) by lra.
  destruct (Hclamp Hpos) as [Heq Hge].
  split; [exact Hpos|]. split; [exact Heq|]. split; [exact Hge|exact Hle].
Defined.

Lemma oblique_distance : distance oblique_a oblique_b = 5.
Proof.
  unfold distance. cbn [x y oblique_a oblique_b]. real_ops.
  replace ((103 - 100) * (103 - 100) + (104 - 100) * (104 - 100)) with (5 * 5)
    by lra.
  apply sqrt_square. lra.
Qed.

Lemma oblique_overlapping : overlapping oblique_a oblique_b = true.
Proof.
  unfold overlapping. rewrite oblique_distance.
  cbn [radius oblique_a oblique_b]. real_ops. apply ltb_true. lra.
Qed.

(** C3 (amended): for an overlapping pair, with [rel] the relative velocity
    along the normal as the code computes it: if [rel > 0] both velocities
    are left as they are; otherwise, with the smaller restitution and
    [impulse = (1 + restitution) * rel / (mass_i + mass_j)], the velocities
    become [v_i + impulse * mass_j * normal] and
    [v_j - impulse * mass_i * normal], every operation being the one of the
    number type (on binary64, the rounded one).  In exact arithmetic, for
    distinct centres and a total mass that is not zero, the tangential
    components keep their values. *)
Theorem velocity_response :
  (forall (num : Type) (N : JsNumber num) (a b : Body num),
      overlapping a b = true ->
      let nx := normalX a b in
      let ny := normalY a b in
      let rel := relativeSpeed nx ny a b in
      let restitution' := Math_min (restitution a) (restitution b) in
      let impulse' :=
        ((lit 1 0 + restitution') * rel / (mass a + mass b))%js in
      let a' := fst (checkCollision a b) in
      let b' := snd (checkCollision a b) in
      if (rel >? lit 0 0)%js then
        vx a' = vx a /\ vy a' = vy a /\ vx b' = vx b /\ vy b' = vy b
      else
        vx a' = (vx a + impulse' * mass b * nx)%js
        /\ vy a' = (vy a + impulse' * mass b * ny)%js
        /\ vx b' = (vx b - impulse' * mass a * nx)%js
        /\ vy b' = (vy b - impulse' * mass a * ny)%js)
  /\ (forall a b : Body R,
        overlapping a b = true ->
        0 < distance a b ->
        mass a + mass b <> 0 ->
        let nx := normalX a b in
        let ny := normalY a b in
        tangentialSpeed nx ny (fst (checkCollision a b))
        = tangentialSpeed nx ny a
        /\ tangentialSpeed nx ny (snd (checkCollision a b))
           = tangentialSpeed nx ny b).
Proof.
  split.
  - intros num N a b Hov. exact (checkCollision_velocity a b Hov).
  - intros a b Hov _ _ nx ny.
    pose proof (checkCollision_velocity a b Hov) as Hv. cbv zeta in Hv.
    fold nx ny in Hv. unfold tangentialSpeed.
    destruct (lt _ _) in Hv; destruct Hv as (-> & -> & -> & ->);
      real_ops; split; ring.
Qed.

(** C7: for an overlapping pair of distinct centres and positive total mass
    that approaches along the normal ([rel <= 0]), resolved with a restitution
    [r] between 0 and 1, the relative speed along the normal after the
    collision is at most [r] times the one before. *)
Theorem energy_bound (a b : Body R) :
  overlapping a b = true ->
  0 < distance a b ->
  0 < mass a + mass b ->
  0 <= Rmin (restitution a) (restitution b) <= 1 ->
  relativeSpeed (normalX a b) (normalY a b) a b <= 0 ->
  Rabs (relativeSpeed (normalX a b) (normalY a b)
          (fst (checkCollision a b)) (snd (checkCollision a b)))
  <= Rmin (restitution a) (restitution b)
     * Rabs (relativeSpeed (normalX a b) (normalY a b) a b).
Proof.
  intros Hov Hd Hm [Hr0 Hr1] Hrel.
  pose proof (checkCollision_velocity a b Hov) as Hv. cbv zeta in Hv.
  pose proof (normal_unit a b Hd) as Hn.
  set (nx := normalX a b) in *. set (ny := normalY a b) in *.
  set (r := Rmin (restitution a) (restitution b)) in *.
  set (a' := fst (checkCollision a b)) in *.
  set (b' := snd (checkCollision a b)) in *.
  assert (Hpost : relativeSpeed nx ny a' b' = - (r * relativeSpeed nx ny a b)).
  { real_ops.
    destruct (Real.ltb 0 (relativeSpeed nx ny a b)) eqn:C;
      [apply ltb_true in C; lra | clear C].
    destruct Hv as (Hax & Hay & Hbx & Hby).
    unfold relativeSpeed at 1. real_ops. rewrite Hax, Hay, Hbx, Hby.
    unfold impulse. fold nx ny r. real_ops.
    set (rel := relativeSpeed nx ny a b).
    transitivity (rel - (1 + r) * rel * (nx * nx + ny * ny)).
    - unfold rel, relativeSpeed, r. real_ops. field. lra.
    - rewrite Hn. ring. }
  rewrite Hpost, Rabs_Ropp, Rabs_mult, (Rabs_pos_eq r) by exact Hr0.
  apply Rle_refl.
Qed.

(** *** The head-on pair *)

Lemma head_on_distance (r1 r2 : R) :
  distance (left_body r1) (right_body r2) = 18.
Proof.
  unfold distance. cbn [x y left_body right_body head_on_body]. real_ops.
  replace ((58 - 40) * (58 - 40) + (50 - 50) * (50 - 50)) with (18 * 18) by lra.
  apply sqrt_square. lra.
Qed.

Lemma head_on_normal (r1 r2 : R) :
  normalX (left_body r1) (right_body r2) = 1
  /\ normalY (left_body r1) (right_body r2) = 0.
Proof.
  unfold normalX, normalY. rewrite head_on_distance.
  cbn [x y left_body right_body head_on_body]. real_ops. split; lra.
Qed.

Lemma head_on_overlapping (r1 r2 : R) :
  overlapping (left_body r1) (right_body r2) = true.
Proof.
  unfold overlapping. rewrite head_on_distance.
  cbn [radius left_body right_body head_on_body]. real_ops. apply ltb_true. lra.
Qed.

Lemma head_on_relativeSpeed (r1 r2 : R) :
  relativeSpeed (normalX (left_body r1) (right_body r2))
    (normalY (left_body r1) (right_body r2)) (left_body r1) (right_body r2)
  = -4.
Proof.
  destruct (head_on_normal r1 r2) as [-> ->]. unfold relativeSpeed.
  cbn [vx vy left_body right_body head_on_body]. real_ops. lra.
Qed.

Lemma velocity_response_witness :
  (overlapping (fst Inputs.oblique_pair) (snd Inputs.oblique_pair) = true
   /\ vx (fst (checkCollision (fst Inputs.oblique_pair)
                 (snd Inputs.oblique_pair)))
      = (vx (fst Inputs.oblique_pair)
         + impulse (fst Inputs.oblique_pair) (snd Inputs.oblique_pair)
           * mass (snd Inputs.oblique_pair)
           * normalX (fst Inputs.oblique_pair) (snd Inputs.oblique_pair))%js)
  /\ overlapping oblique_a oblique_b = true
  /\ 0 < distance oblique_a oblique_b
  /\ mass oblique_a + mass oblique_b <> 0
  /\ tangentialSpeed (3 / 5) (4 / 5) (fst (checkCollision oblique_a oblique_b))
     = - 9 / 5
  /\ tangentialSpeed (3 / 5) (4 / 5) (snd (checkCollision oblique_a oblique_b))
     = 2.
Proof.
  destruct velocity_response as [Hformula Htangential].
  assert (Hpair : overlapping (fst Inputs.oblique_pair)
                    (snd Inputs.oblique_pair) = true)
    by (vm_compute; reflexivity).
  assert (Hd : 0 < distance oblique_a oblique_b)
    by (rewrite oblique_distance; lra).
  assert (Hm : mass oblique_a + mass oblique_b <> 0)
    by (cbn [mass oblique_a oblique_b]; lra).
  split; [split; [exact Hpair|]|].
  - pose proof (Hformula _ _ _ _ Hpair) as Hv. cbv zeta in Hv.
    assert (Hrel : (relativeSpeed
                      (normalX (fst Inputs.oblique_pair)
                         (snd Inputs.oblique_pair))
                      (normalY (fst Inputs.oblique_pair)
                         (snd Inputs.oblique_pair))
                      (fst Inputs.oblique_pair) (snd Inputs.oblique_pair)
                    >? lit 0 0)%js = false)
      by (vm_compute; reflexivity).
    rewrite Hrel in Hv. exact (proj1 Hv).
  - split; [exact oblique_overlapping|]. split; [exact Hd|].
    split; [exact Hm|].
    pose proof (Htangential _ _ oblique_overlapping Hd Hm) as Ht.
    cbv zeta in Ht. unfold normalX, normalY in Ht.
    rewrite oblique_distance in Ht.
    cbn [x y oblique_a oblique_b] in Ht. real_ops.
    replace ((103 - 100) / 5) with (3 / 5) in Ht by lra.
    replace ((104 - 100) / 5) with (4 / 5) in Ht by lra.
    destruct Ht as [-> ->]. unfold tangentialSpeed.
    cbn [vx vy oblique_a oblique_b]. real_ops. split; lra.
Defined.

Lemma energy_bound_witness :
  Rabs (relativeSpeed (normalX (left_body (4 / 5)) (right_body (4 / 5)))
          (normalY (left_body (4 / 5)) (right_body (4 / 5)))
          (fst (checkCollision (left_body (4 / 5)) (right_body (4 / 5))))
          (snd (checkCollision (left_body (4 / 5)) (right_body (4 / 5)))))
  <= Rmin (4 / 5) (4 / 5) * Rabs (-4).
Proof.
  assert (Hd : 0 < distance (left_body (4 / 5)) (right_body (4 / 5)))
    by (rewrite head_on_distance; lra).
  assert (Hm : 0 < mass (left_body (4 / 5)) + mass (right_body (4 / 5)))
    by (cbn [mass left_body right_body head_on_body]; real_ops; lra).
  assert (Hr : 0 <= Rmin (restitution (left_body (4 / 5)))
                      (restitution (right_body (4 / 5))) <= 1)
    by (cbn [restitution left_body right_body head_on_body]; unfold Rmin;
        destruct (Rle_dec (4 / 5) (4 / 5)); lra).
  assert (Hrel : relativeSpeed
                   (normalX (left_body (4 / 5)) (right_body (4 / 5)))
                   (normalY (left_body (4 / 5)) (right_body (4 / 5)))
                   (left_body (4 / 5)) (right_body (4 / 5)) <= 0)
    by (rewrite head_on_relativeSpeed; lra).
  pose proof (energy_bound _ _ (head_on_overlapping (4 / 5) (4 / 5))
                Hd Hm Hr Hrel) as Hbound.
  rewrite head_on_relativeSpeed in Hbound. exact Hbound.
Defined.

(** C9 (amended): the centres are 18 apart and the radii add up to 20, so the
    overlap is 2: one resolution pass moves each centre by 1 along x, to 39
    and 59, and turns the velocities (2, 0) and (-2, 0) into [-2 r] and
    [2 r] along x, with [r] the smaller restitution. *)
Theorem head_on_resolution (r1 r2 : R) :
  let a' := fst (checkCollision (left_body r1) (right_body r2)) in
  let b' := snd (checkCollision (left_body r1) (right_body r2)) in
  radius (left_body r1) + radius (right_body r2)
    - distance (left_body r1) (right_body r2) = 2
  /\ x a' = 40 - 1 /\ y a' = 50
  /\ x b' = 58 + 1 /\ y b' = 50
  /\ vx a' = - (Rmin r1 r2 * 2) /\ vy a' = 0
  /\ vx b' = Rmin r1 r2 * 2 /\ vy b' = 0.
Proof.
  intros a' b'.
  pose proof (head_on_overlapping r1 r2) as Hov.
  pose proof (checkCollision_position _ _ Hov) as Hp.
  pose proof (checkCollision_velocity _ _ Hov) as Hv.
  cbv zeta in Hp, Hv. fold a' b' in Hp, Hv.
  unfold impulse in Hv. rewrite head_on_relativeSpeed in Hv.
  rewrite head_on_distance in *.
  destruct (head_on_normal r1 r2) as [Hnx Hny]. rewrite Hnx, Hny in *.
  cbn [x y vx vy radius mass restitution left_body right_body
         head_on_body] in *.
  real_ops.
  destruct (Real.ltb 0 (-4)) eqn:C; [apply ltb_true in C; lra | clear C].
  destruct Hp as (-> & -> & -> & ->). destruct Hv as (-> & -> & -> & ->).
  repeat split; lra.
Qed.

(** *** Boundary containment *)

(** Case analysis on the comparisons of the goal, innermost first. *)
Ltac cases_ltb :=
  repeat match goal with
    | |- context [Real.ltb ?a ?b] =>
        lazymatch a with context [Real.ltb] => fail | _ => idtac end;
        lazymatch b with context [Real.ltb] => fail | _ => idtac end;
        let C := fresh "C" in
        destruct (Real.ltb a b) eqn:C;
        [apply ltb_true in C | apply ltb_false in C];
        cbn [x y vx vy radius restitution set_x set_y set_vx set_vy] in *
    end.

Lemma boundary_in_bounds (w : World R) (o : Body R) :
  2 * radius o <= width (canvas w) ->
  2 * radius o <= height (canvas w) ->
  in_bounds (canvas w) (boundary w o).
Proof.
  intros Hw Hh. unfold boundary, in_bounds. real_ops. cbv zeta.
  cases_ltb; lra.
Qed.

Lemma unit_draw_real (r : R) : unit_draw r = true -> 0 <= r < 1.
Proof.
  unfold unit_draw. real_ops. intros Hr.
  apply andb_prop in Hr. destruct Hr as [Hlo Hhi].
  apply negb_true_iff, ltb_false in Hlo. apply ltb_true in Hhi. lra.
Qed.

Lemma spawned_static (o o' : Body R) :
  static o = static o' -> spawned o' -> spawned o.
Proof.
  unfold static, spawned. intros Hs. injection Hs as -> -> _ -> ->. tauto.
Qed.

Lemma reachable_sized (w : World R) : reachable w -> sized w.
Proof.
  induction 1 as [|w px py rnd _ [IHc IHr] Hrnd|w _ IH|w _ [IHc IHr]
                 |w e _ [IHc IHr]].
  - split; [|constructor]. unfold constructor. real_ops. reflexivity.
  - unfold addObjectAt. destruct (50 <=? length (objects w)); [split; assumption|].
    split; [exact IHc|]. cbn [snd objects updateObjectCount set_objects].
    apply Forall_app. split; [exact IHr|]. constructor; [|constructor].
    unfold spawned. cbn [radius mass restitution friction]. real_ops.
    unfold valid_draws in Hrnd.
    do 3 (apply andb_prop in Hrnd; destruct Hrnd as [Hrnd _]).
    apply unit_draw_real in Hrnd. repeat split; lra.
  - exact IH.
  - split; [exact IHc|constructor].
  - split; [exact IHc|].
    apply (Forall_static spawned _ (objects w));
      [apply spawned_static|apply update_static|exact IHr].
Qed.

(** Over the real numbers, in every reachable state, the first loop of
    [update] leaves each body within the canvas. *)
Lemma reachable_in_bounds (w : World R) (dt : R) :
  reachable w -> Forall (in_bounds (canvas w)) (move_objects dt w).
Proof.
  intros Hreach. destruct (reachable_sized w Hreach) as [Hc Hr].
  rewrite move_objects_map, Forall_fmap.
  apply (Forall_impl _ _ _ Hr). intros o [Ho _]. cbn [compose].
  pose proof (integrate_static w dt o) as Hs.
  assert (Hrad : radius (integrate w dt o) = radius o)
    by (unfold static in Hs; congruence).
  apply boundary_in_bounds; rewrite Hrad, Hc; cbn [width height]; lra.
Qed.


Lemma unit_draw_half : unit_draw (1 / 2) = true.
Proof.
  unfold unit_draw. real_ops. apply andb_true_intro. split.
  - apply negb_true_iff, ltb_false. lra.
  - apply ltb_true. lra.
Qed.

Lemma one_body_world_reachable : reachable one_body_world.
Proof.
  apply reach_addObjectAt; [apply reach_constructor|].
  unfold valid_draws, middle_draws. cbn [draw_radius draw_hue draw_vx draw_vy].
  rewrite unit_draw_half. reflexivity.
Qed.


End OverReals.

(** ** The simulation on binary64 *)

Module Binary64.

Import Inputs.

Lemma spawn_reachable (px py : float) (w : World float) :
  reachable w -> reachable (spawn px py still_draws w).
Proof. intros Hw. apply reach_addObjectAt; [exact Hw|]. vm_compute. reflexivity. Qed.

Lemma full_world_reachable : reachable full_world.
Proof.
  unfold full_world. generalize 50%nat. intros n.
  induction n as [|n IH]; simpl; [apply reach_constructor|].
  apply spawn_reachable, IH.
Qed.


(** C2: with two objects spawned at the same point and no time elapsed, the
    resolver divides 0 by the zero distance: both objects come out of [update]
    with NaN coordinates and NaN velocities. *)
Theorem coincident_centers_give_nan :
  reachable coincident_world
  /\ length (objects (update (dec 0 0) coincident_world)) = 2
  /\ forallb (fun o => is_nan (x o) && is_nan (y o)
                       && is_nan (vx o) && is_nan (vy o))
       (objects (update (dec 0 0) coincident_world)) = true.
Proof.
  split; [apply spawn_reachable, spawn_reachable, reach_constructor|].
  split; vm_compute; reflexivity.
Qed.

Lemma integrate_order_witness :
  gravityEnabled (toggleGravity (@constructor float _)) = false
  /\ vx (integrate (toggleGravity constructor) (dec 1 0) left_08)
     = mul (vx left_08) (friction left_08)
  /\ vy (integrate (toggleGravity constructor) (dec 1 0) left_08)
     = mul (vy left_08) (friction left_08).
Proof.
  assert (Hoff : gravityEnabled (toggleGravity (@constructor float _)) = false)
    by reflexivity.
  split; [exact Hoff|].
  destruct (integrate_order (toggleGravity constructor) (dec 1 0) left_08)
    as (_ & _ & Hdisabled).
  exact (Hdisabled Hoff).
Defined.

(** [update] has no lower clamp of its own: called with -16.67, which
    [render] never passes, it would use the factor -1. *)
Lemma negative_elapsed_not_clamped :
  timestep (dec (-1667) 2) = dec (-1) 0
  /\ lt (timestep (dec (-1667) 2)) (dec 0 0) = true.
Proof. split; vm_compute; reflexivity. Qed.

(** C6, as stated, fails: at 50 bodies [addObjectAt] completes with
    [undefined], the value with which a successful spawn completes; the
    caller gets no signal. *)
Lemma capacity_exit_is_silent :
  length (objects full_world) = 50
  /\ fst (addObjectAt (dec 300 0) (dec 200 0) still_draws full_world)
     = JsUndefined
  /\ fst (addObjectAt (dec 300 0) (dec 200 0) still_draws constructor)
     = JsUndefined
  /\ length (objects (spawn (dec 300 0) (dec 200 0) still_draws constructor))
     = 1.
Proof. repeat split; vm_compute; reflexivity. Qed.

Lemma population_cap_witness :
  length (objects full_world) = 50
  /\ addObjectAt (dec 300 0) (dec 200 0) still_draws full_world
     = (JsUndefined, full_world)
  /\ length (objects full_world) <= 50.
Proof.
  destruct (population_cap full_world) as [Hfull Hcap].
  assert (Hlen : length (objects full_world) = 50) by (vm_compute; reflexivity).
  split; [exact Hlen|]. split; [apply Hfull, Hlen|].
  apply Hcap, full_world_reachable.
Defined.

(** C9, as stated, fails: the pass moves each centre by 1, to x = 39 and
    x = 59, not by 4. *)
Lemma head_on_push_is_not_4 :
  let a' := fst (checkCollision left_08 right_08) in
  let b' := snd (checkCollision left_08 right_08) in
  x a' = dec 39 0 /\ x b' = dec 59 0
  /\ PrimFloat.eqb (sub (x left_08) (x a')) (dec 4 0) = false
  /\ PrimFloat.eqb (sub (x b') (x right_08)) (dec 4 0) = false.
Proof. repeat split; vm_compute; reflexivity. Qed.

(** The outcome of the pass on binary64, restitution 0.8: velocities -1.6 and
    1.6 along x. *)
Lemma head_on_resolution_binary64 :
  let a' := fst (checkCollision left_08 right_08) in
  let b' := snd (checkCollision left_08 right_08) in
  (x a', y a', vx a', vy a') = (dec 39 0, dec 50 0, dec (-16) 1, dec 0 0)
  /\ (x b', y b', vx b', vy b') = (dec 59 0, dec 50 0, dec 16 1, dec 0 0).
Proof. split; vm_compute; reflexivity. Qed.

(** The bound [x <= width - radius] of C1 is one of exact arithmetic.  The
    body of [tight_world], a reachable state, has the radius [20 - 2^-44] and
    lies at [x = 580 + 2^-43]; it does not move along x.  The sum
    [x + radius] rounds to 600, so the test [x + radius > width] fails and the
    body stays where it is, although [x] exceeds [width - radius], both as
    the code would compute it (580) and exactly ([580 + 2^-44]). *)
Lemma rounding_passes_the_wall_test :
  reachable tight_world
  /\ match objects (update (dec 1667 2) tight_world) with
     | [o] =>
         x o = ratio 5101733952880641 8796093022208
         /\ radius o = ratio 351843720888319 17592186044416
         /\ add (x o) (radius o) = dec 600 0
         /\ lt (width (canvas tight_world)) (add (x o) (radius o)) = false
         /\ sub (width (canvas tight_world)) (radius o) = dec 580 0
         /\ lt (sub (width (canvas tight_world)) (radius o)) (x o) = true
         /\ match Float64.exact (x o), Float64.exact (radius o) with
            | Some qx, Some qr => Qle_bool (qx + qr) 600
            | _, _ => true
            end = false
     | _ => False
     end.
Proof.
  split.
  - apply reach_addObjectAt; [apply reach_constructor|].
    vm_compute. reflexivity.
  - vm_compute. repeat split; reflexivity.
Qed.

(** C3, as stated, fails on binary64.  The two bodies of [oblique_world], a
    reachable state, overlap when the collision pass of [update] reaches them
    and approach each other; the line of centres is along (3, 4).  The
    tangential speed of the first body, measured before and after the
    velocity response, differs in its last bit, and the exact change of
    velocity of either body is not along the line of centres. *)
Lemma tangential_speed_drifts :
  reachable oblique_world
  /\ let a := fst oblique_pair in
     let b := snd oblique_pair in
     let nx := normalX a b in
     let ny := normalY a b in
     let a' := fst (checkCollision a b) in
     let b' := snd (checkCollision a b) in
     move_objects (timestep (dec 0 0)) oblique_world = [a; b]
     /\ objects (update (dec 0 0) oblique_world) = [a'; b']
     /\ (sub (x b) (x a), sub (y b) (y a)) = (dec 3 0, dec 4 0)
     /\ overlapping a b = true
     /\ lt (dec 0 0) (relativeSpeed nx ny a b) = false
     /\ PrimFloat.eqb (tangentialSpeed nx ny a') (tangentialSpeed nx ny a)
        = false
     /\ change_along 3 4 a a' = Some false
     /\ change_along 3 4 b b' = Some false.
Proof.
  split.
  - apply reach_addObjectAt;
      [apply reach_addObjectAt; [apply reach_constructor|]|];
      vm_compute; reflexivity.
  - vm_compute. repeat split; reflexivity.
Qed.

(** With the largest draw, which is below 1, [addObjectAt] builds a body of
    radius exactly 25: [draw * 15 + 10] rounds up.  The velocity components
    and the hue stay below 5 and 360. *)
Lemma largest_draw_radius_25 :
  valid_draws largest_draws = true
  /\ match objects (spawn (dec 300 0) (dec 200 0) largest_draws constructor)
     with
     | [o] =>
         radius o = dec 25 0
         /\ lt (vx o) (dec 5 0) = true /\ lt (vy o) (dec 5 0) = true
         /\ lt (hue (color o)) (dec 360 0) = true
     | _ => False
     end.
Proof. split; [vm_compute; reflexivity|]. vm_compute. repeat split; reflexivity. Qed.

End Binary64.

(** * Further properties of the code *)

(** ** The state of the simulation *)

Section Bookkeeping.

Context {num : Type} `{JsNumber num}.

Local Open Scope js_scope.

(** X1: in every state reachable through the public operations, the counter
    shown on the page, [objectCount], is the number of objects. *)
Theorem objectCount_tracks_objects (w : World num) :
  reachable w -> objectCount w = length (objects w).
Proof.
  induction 1 as [|w px py rnd _ IH _|w _ IH|w _ IH|w e _ IH].
  - reflexivity.
  - unfold addObjectAt. destruct (50 <=? length (objects w)); [exact IH|].
    reflexivity.
  - exact IH.
  - reflexivity.
  - rewrite update_length. exact IH.
Qed.

Lemma set_objects_same (w : World num) : set_objects (objects w) w = w.
Proof. destruct w. reflexivity. Qed.

Lemma addObjectAt_length (px py : num) (rnd : Draws num) (w : World num) :
  length (objects w) <= 50 ->
  length (objects (snd (addObjectAt px py rnd w)))
  = Nat.min 50 (S (length (objects w))).
Proof.
  intros Hcap. unfold addObjectAt.
  destruct (Nat.leb_spec 50 (length (objects w))).
  - cbn [snd]. lia.
  - cbn [snd objects updateObjectCount set_objects].
    rewrite length_app. cbn [length]. lia.
Qed.

(** X2: a sequence of spawn requests fills the world up to 50 bodies and no
    further: after the requests the number of bodies is the smaller of 50 and
    the number before plus the number of requests.  In particular, after
    [clearObjects] the first 50 requests all succeed. *)
Theorem spawns_fill_to_cap (reqs : list (Request (num := num)))
  (w : World num) :
  length (objects w) <= 50 ->
  length (objects (spawn_all reqs w))
  = Nat.min 50 (length (objects w) + length reqs)
  /\ length (objects (spawn_all reqs (clearObjects w)))
     = Nat.min 50 (length reqs).
Proof.
  assert (Hgen : forall (l : list (Request (num := num))) (w0 : World num),
             length (objects w0) <= 50 ->
             length (objects (spawn_all l w0))
             = Nat.min 50 (length (objects w0) + length l)).
  { induction l as [|[[px py] rnd] l IH]; intros w0 Hcap.
    - cbn [spawn_all fold_left length]. lia.
    - unfold spawn_all in *. cbn [fold_left fst snd length].
      rewrite IH; rewrite addObjectAt_length by exact Hcap; lia. }
  intros Hcap. split; [apply Hgen, Hcap|].
  rewrite Hgen; cbn [objects clearObjects updateObjectCount set_objects length];
    [reflexivity|lia].
Qed.

End Bookkeeping.

(** ** The render loop *)

Section RenderLoopFacts.

Context {num : Type} `{JsNumber num}.

Import RenderLoop.

Lemma render_stopped (now : num) (handle : nat) (r : Runner num) :
  isRunning r = false -> render now handle r = r.
Proof. intros Hoff. unfold render. rewrite Hoff. reflexivity. Qed.

(** The world after a sequence of events is the world before, stepped by
    the logged elapsed times, in order. *)
Lemma elapsed_times_sound (evs : list (Event num)) (r : Runner num) :
  sim (fold_left deliver evs r)
  = fold_left (fun w e => update e w) (elapsed_times evs r) (sim r).
Proof.
  revert r. induction evs as [|ev evs IH]; intros r; [reflexivity|].
  cbn [fold_left elapsed_times]. rewrite fold_left_app, IH. f_equal.
  destruct ev as [now0 now1 handle|now handle]; simpl;
    unfold toggle, start, stop, render;
    destruct (isRunning r); reflexivity.
Qed.

(** X3: once the simulation is stopped, frame callbacks do nothing, however
    many are still delivered: the state stays as [stop] left it. *)
Theorem frames_after_stop (frames : list (num * nat)) (r : Runner num) :
  fold_left (fun r' f => render (fst f) (snd f) r') frames (stop r) = stop r.
Proof.
  induction frames as [|f frames IH]; simpl; [reflexivity|].
  rewrite render_stopped by reflexivity. exact IH.
Qed.

End RenderLoopFacts.

(** ** Mechanics of a collision, over the real numbers *)

Module Mechanics.

Import Ideal OverReals.

Local Open Scope R_scope.

Lemma checkCollision_mass (a b : Body R) :
  mass (fst (checkCollision a b)) = mass a
  /\ mass (snd (checkCollision a b)) = mass b.
Proof.
  destruct (checkCollision_static a b) as [Ha Hb]. unfold static in *.
  split; congruence.
Qed.

(** X4: for a pair of distinct centres and non-zero total mass,
    [checkCollision] conserves the linear momentum of the pair, on both axes,
    whether the pair overlaps or not and whichever way it moves. *)
Theorem momentum_conserved (a b : Body R) :
  0 < distance a b ->
  mass a + mass b <> 0 ->
  let a' := fst (checkCollision a b) in
  let b' := snd (checkCollision a b) in
  mass a' * vx a' + mass b' * vx b' = mass a * vx a + mass b * vx b
  /\ mass a' * vy a' + mass b' * vy b' = mass a * vy a + mass b * vy b.
Proof.
  intros _ _ a' b'. destruct (checkCollision_mass a b) as [Hma Hmb].
  fold a' b' in Hma, Hmb. rewrite Hma, Hmb.
  destruct (overlapping a b) eqn:Hov.
  - pose proof (checkCollision_velocity a b Hov) as Hv. cbv zeta in Hv.
    fold a' b' in Hv. real_ops.
    destruct (Real.ltb 0 _); destruct Hv as (-> & -> & -> & ->);
      split; ring.
  - unfold a', b'. rewrite (checkCollision_apart a b Hov). split; reflexivity.
Qed.

(** X5: for a pair of distinct centres and non-zero total mass, the
    positional correction of [checkCollision] leaves the centre of mass of the
    pair where it was. *)
Theorem centre_of_mass_fixed (a b : Body R) :
  0 < distance a b ->
  mass a + mass b <> 0 ->
  let a' := fst (checkCollision a b) in
  let b' := snd (checkCollision a b) in
  mass a' * x a' + mass b' * x b' = mass a * x a + mass b * x b
  /\ mass a' * y a' + mass b' * y b' = mass a * y a + mass b * y b.
Proof.
  intros _ _ a' b'. destruct (checkCollision_mass a b) as [Hma Hmb].
  fold a' b' in Hma, Hmb. rewrite Hma, Hmb.
  destruct (overlapping a b) eqn:Hov.
  - pose proof (checkCollision_position a b Hov) as Hp. cbv zeta in Hp.
    fold a' b' in Hp. real_ops.
    destruct Hp as (-> & -> & -> & ->). unfold Rdiv. split; ring.
  - unfold a', b'. rewrite (checkCollision_apart a b Hov). split; reflexivity.
Qed.

(** X6: after [checkCollision] an overlapping pair of distinct centres and
    non-zero total mass just touches: the distance of the centres is the sum
    of the radii. *)
Theorem resolved_pair_touches (a b : Body R) :
  overlapping a b = true ->
  0 < distance a b ->
  mass a + mass b <> 0 ->
  distance (fst (checkCollision a b)) (snd (checkCollision a b))
  = radius a + radius b.
Proof.
  intros Hov Hd Hm.
  pose proof (checkCollision_position a b Hov) as Hp. cbv zeta in Hp.
  pose proof (normal_unit a b Hd) as Hn.
  assert (Hs : distance a b < radius a + radius b)
    by (unfold overlapping in Hov; real_ops; apply ltb_true in Hov; exact Hov).
  set (a' := fst (checkCollision a b)) in *.
  set (b' := snd (checkCollision a b)) in *.
  set (s := radius a + radius b) in *.
  assert (Hdx : x b = x a + normalX a b * distance a b)
    by (unfold normalX; real_ops; field; lra).
  assert (Hdy : y b = y a + normalY a b * distance a b)
    by (unfold normalY; real_ops; field; lra).
  assert (Hx : x b' - x a' = normalX a b * s).
  { destruct Hp as (-> & _ & -> & _). real_ops. rewrite Hdx at 1.
    unfold s. field. exact Hm. }
  assert (Hy : y b' - y a' = normalY a b * s).
  { destruct Hp as (_ & -> & _ & ->). real_ops. rewrite Hdy at 1.
    unfold s. field. exact Hm. }
  unfold distance at 1. real_ops. rewrite Hx, Hy.
  replace (normalX a b * s * (normalX a b * s)
           + normalY a b * s * (normalY a b * s))
    with ((normalX a b * normalX a b + normalY a b * normalY a b) * (s * s))
    by ring.
  rewrite Hn, Rmult_1_l. apply sqrt_square. lra.
Qed.

Lemma energy_algebra (ma mb vax vay vbx vby nx ny r : R) :
  0 < ma -> 0 < mb -> nx * nx + ny * ny = 1 -> 0 <= r <= 1 ->
  let rel := (vbx - vax) * nx + (vby - vay) * ny in
  let j := (1 + r) * rel / (ma + mb) in
  ma * ((vax + j * mb * nx) * (vax + j * mb * nx)
        + (vay + j * mb * ny) * (vay + j * mb * ny))
  + mb * ((vbx - j * ma * nx) * (vbx - j * ma * nx)
          + (vby - j * ma * ny) * (vby - j * ma * ny))
  <= ma * (vax * vax + vay * vay) + mb * (vbx * vbx + vby * vby).
Proof.
  intros Hma Hmb Hn [Hr0 Hr1] rel j.
  assert (HjM : j * (ma + mb) = (1 + r) * rel) by (unfold j; field; lra).
  assert (Hdiff :
    ma * ((vax + j * mb * nx) * (vax + j * mb * nx)
          + (vay + j * mb * ny) * (vay + j * mb * ny))
    + mb * ((vbx - j * ma * nx) * (vbx - j * ma * nx)
            + (vby - j * ma * ny) * (vby - j * ma * ny))
    - (ma * (vax * vax + vay * vay) + mb * (vbx * vbx + vby * vby))
    = ma * mb * j * (j * (ma + mb) * (nx * nx + ny * ny) - 2 * rel))
    by (unfold rel; ring).
  rewrite Hn, HjM, Rmult_1_r in Hdiff.
  assert (Hj : j = (1 + r) * rel * / (ma + mb)) by (unfold j; reflexivity).
  assert (Hk : 0 < ma * mb * / (ma + mb))
    by (apply Rmult_lt_0_compat; [nra|apply Rinv_0_lt_compat; lra]).
  assert (Hloss : ma * mb * j * ((1 + r) * rel - 2 * rel)
                  = - ((ma * mb * / (ma + mb))
                       * (((1 + r) * (1 - r)) * (rel * rel))))
    by (rewrite Hj; ring).
  assert (Hsq : 0 <= rel * rel) by nra.
  assert (Hrr : 0 <= (1 + r) * (1 - r)) by nra.
  assert (Hprod : 0 <= (ma * mb * / (ma + mb))
                       * (((1 + r) * (1 - r)) * (rel * rel)))
    by (apply Rmult_le_pos; [lra|apply Rmult_le_pos; assumption]).
  lra.
Qed.

(** X7: for bodies of positive mass, distinct centres and a restitution
    between 0 and 1, [checkCollision] never increases the kinetic energy of the
    pair. *)
Theorem kinetic_energy_not_increased (a b : Body R) :
  0 < mass a -> 0 < mass b ->
  0 < distance a b ->
  0 <= Rmin (restitution a) (restitution b) <= 1 ->
  Measures.twice_kinetic_energy (fst (checkCollision a b))
    (snd (checkCollision a b))
  <= Measures.twice_kinetic_energy a b.
Proof.
  intros Hma Hmb Hd Hr. unfold Measures.twice_kinetic_energy.
  destruct (checkCollision_mass a b) as [Hma' Hmb']. rewrite Hma', Hmb'.
  destruct (overlapping a b) eqn:Hov.
  - pose proof (checkCollision_velocity a b Hov) as Hv. cbv zeta in Hv.
    real_ops.
    destruct (Real.ltb 0 _); destruct Hv as (-> & -> & -> & ->);
      [apply Rle_refl|].
    unfold impulse, relativeSpeed. real_ops.
    apply (energy_algebra (mass a) (mass b) (vx a) (vy a) (vx b) (vy b)
             (normalX a b) (normalY a b)
             (Rmin (restitution a) (restitution b)) Hma Hmb
             (normal_unit a b Hd) Hr).
  - rewrite (checkCollision_apart a b Hov). apply Rle_refl.
Qed.

Lemma head_on_masses (r1 r2 : R) :
  mass (left_body r1) = 2 /\ mass (right_body r2) = 2.
Proof.
  cbn [mass left_body right_body head_on_body]. real_ops. split; reflexivity.
Qed.

Lemma momentum_conserved_witness :
  mass (fst (checkCollision (left_body (4 / 5)) (right_body (4 / 5))))
  * vx (fst (checkCollision (left_body (4 / 5)) (right_body (4 / 5))))
  + mass (snd (checkCollision (left_body (4 / 5)) (right_body (4 / 5))))
    * vx (snd (checkCollision (left_body (4 / 5)) (right_body (4 / 5))))
  = mass (left_body (4 / 5)) * vx (left_body (4 / 5))
    + mass (right_body (4 / 5)) * vx (right_body (4 / 5)).
Proof.
  assert (Hd : 0 < distance (left_body (4 / 5)) (right_body (4 / 5)))
    by (rewrite head_on_distance; lra).
  assert (Hm : mass (left_body (4 / 5)) + mass (right_body (4 / 5)) <> 0)
    by (destruct (head_on_masses (4 / 5) (4 / 5)) as [-> ->]; lra).
  exact (proj1 (momentum_conserved _ _ Hd Hm)).
Defined.

Lemma centre_of_mass_fixed_witness :
  mass (fst (checkCollision (left_body (4 / 5)) (right_body (4 / 5))))
  * x (fst (checkCollision (left_body (4 / 5)) (right_body (4 / 5))))
  + mass (snd (checkCollision (left_body (4 / 5)) (right_body (4 / 5))))
    * x (snd (checkCollision (left_body (4 / 5)) (right_body (4 / 5))))
  = mass (left_body (4 / 5)) * x (left_body (4 / 5))
    + mass (right_body (4 / 5)) * x (right_body (4 / 5)).
Proof.
  assert (Hd : 0 < distance (left_body (4 / 5)) (right_body (4 / 5)))
    by (rewrite head_on_distance; lra).
  assert (Hm : mass (left_body (4 / 5)) + mass (right_body (4 / 5)) <> 0)
    by (destruct (head_on_masses (4 / 5) (4 / 5)) as [-> ->]; lra).
  exact (proj1 (centre_of_mass_fixed _ _ Hd Hm)).
Defined.

Lemma resolved_pair_touches_witness :
  distance (fst (checkCollision (left_body (4 / 5)) (right_body (4 / 5))))
    (snd (checkCollision (left_body (4 / 5)) (right_body (4 / 5))))
  = radius (left_body (4 / 5)) + radius (right_body (4 / 5)).
Proof.
  apply resolved_pair_touches.
  - apply head_on_overlapping.
  - rewrite head_on_distance. lra.
  - destruct (head_on_masses (4 / 5) (4 / 5)) as [-> ->]. lra.
Defined.

Lemma kinetic_energy_not_increased_witness :
  Measures.twice_kinetic_energy
    (fst (checkCollision (left_body (4 / 5)) (right_body (4 / 5))))
    (snd (checkCollision (left_body (4 / 5)) (right_body (4 / 5))))
  <= Measures.twice_kinetic_energy (left_body (4 / 5)) (right_body (4 / 5)).
Proof.
  destruct (head_on_masses (4 / 5) (4 / 5)) as [Hl Hr].
  apply kinetic_energy_not_increased.
  - rewrite Hl. lra.
  - rewrite Hr. lra.
  - rewrite head_on_distance. lra.
  - cbn [restitution left_body right_body head_on_body].
    unfold Rmin. destruct (Rle_dec (4 / 5) (4 / 5)); lra.
Defined.

(** *** The boundary clamp *)

Lemma boundary_fixes_in_bounds (w : World R) (o : Body R) :
  in_bounds (canvas w) o -> boundary w o = o.
Proof.
  intros [[Hx0 Hx1] [Hy0 Hy1]]. unfold boundary. real_ops. cbv zeta.
  cases_ltb; try lra. reflexivity.
Qed.

(** X8: when the canvas is at least as wide and as high as the body, the
    boundary clamp is idempotent: a second pass changes neither the position
    nor the velocity that the first one left, so a bounce never flips a
    velocity twice. *)
Theorem boundary_idempotent (w : World R) (o : Body R) :
  2 * radius o <= width (canvas w) ->
  2 * radius o <= height (canvas w) ->
  boundary w (boundary w o) = boundary w o.
Proof.
  intros Hw Hh. apply boundary_fixes_in_bounds, boundary_in_bounds; assumption.
Qed.

(** X9: in a canvas at least as wide and as high as the body, a body past a
    wall is put on that wall with the velocity component across it negated
    and scaled by its restitution, once; the two axes are treated
    independently, so a body in a corner bounces on both. *)
Theorem wall_bounce (w : World R) (o : Body R) :
  2 * radius o <= width (canvas w) ->
  2 * radius o <= height (canvas w) ->
  (x o - radius o < 0 ->
   x (boundary w o) = radius o /\ vx (boundary w o) = - vx o * restitution o)
  /\ (x o + radius o > width (canvas w) ->
      x (boundary w o) = width (canvas w) - radius o
      /\ vx (boundary w o) = - vx o * restitution o)
  /\ (y o - radius o < 0 ->
      y (boundary w o) = radius o /\ vy (boundary w o) = - vy o * restitution o)
  /\ (y o + radius o > height (canvas w) ->
      y (boundary w o) = height (canvas w) - radius o
      /\ vy (boundary w o) = - vy o * restitution o).
Proof.
  intros Hw Hh. unfold boundary. real_ops. cbv zeta.
  repeat split; cases_ltb; try lra; reflexivity.
Qed.

Lemma constructor_canvas :
  width (canvas (@constructor R _)) = 600
  /\ height (canvas (@constructor R _)) = 400.
Proof. cbn [width height canvas constructor]. real_ops. split; reflexivity. Qed.

Lemma corner_body_fits :
  2 * radius Measures.corner_body <= width (canvas (@constructor R _))
  /\ 2 * radius Measures.corner_body <= height (canvas (@constructor R _)).
Proof.
  destruct constructor_canvas as [-> ->].
  cbn [radius Measures.corner_body]. lra.
Qed.

Lemma boundary_idempotent_witness :
  boundary constructor (boundary constructor Measures.corner_body)
  = boundary constructor Measures.corner_body.
Proof.
  destruct corner_body_fits as [Hw Hh].
  exact (boundary_idempotent constructor Measures.corner_body Hw Hh).
Defined.

Lemma wall_bounce_witness :
  x (boundary constructor Measures.corner_body) = 10
  /\ vx (boundary constructor Measures.corner_body) = - -3 * (8 / 10)
  /\ y (boundary constructor Measures.corner_body)
     = height (canvas (@constructor R _)) - 10
  /\ vy (boundary constructor Measures.corner_body) = - 4 * (8 / 10).
Proof.
  destruct corner_body_fits as [Hw Hh].
  destruct (wall_bounce constructor Measures.corner_body Hw Hh)
    as (Hleft & _ & _ & Hbottom).
  assert (Hl : x Measures.corner_body - radius Measures.corner_body < 0)
    by (cbn [x radius Measures.corner_body]; lra).
  assert (Hb : y Measures.corner_body + radius Measures.corner_body
               > height (canvas (@constructor R _)))
    by (destruct constructor_canvas as [_ ->];
        cbn [y radius Measures.corner_body]; lra).
  destruct (Hleft Hl) as [Hx Hvx]. destruct (Hbottom Hb) as [Hy Hvy].
  repeat split; assumption.
Defined.

(** *** Spawning *)

(** X10: below the cap and with draws in the unit interval, [addObjectAt]
    appends exactly one body, at the point asked for, behind the bodies
    already there: its radius is at least 10 and at most 25, its mass is a
    fifth of the radius, each velocity component is at least -5 and below 5,
    the hue is at least 0 and below 360, restitution and friction are 0.8 and
    0.99; and the counter goes up by one.  The bound of 25 is not strict: on
    binary64 the largest draw gives a radius of exactly 25. *)
Theorem spawn_appends_one (w : World R) (px py : R) (rnd : Draws R) :
  (length (objects w) < 50)%nat ->
  valid_draws rnd = true ->
  exists o,
    objects (snd (addObjectAt px py rnd w)) = objects w ++ [o]
    /\ objectCount (snd (addObjectAt px py rnd w)) = S (length (objects w))
    /\ x o = px /\ y o = py
    /\ 10 <= radius o <= 25 /\ mass o = radius o / 5
    /\ -5 <= vx o < 5 /\ -5 <= vy o < 5
    /\ 0 <= hue (color o) < 360
    /\ restitution o = 8 / 10 /\ friction o = 99 / 100.
Proof.
  intros Hroom Hrnd. unfold addObjectAt.
  destruct (Nat.leb_spec 50 (length (objects w))) as [Hfull|_]; [lia|].
  eexists. split; [reflexivity|].
  split; [cbn [snd objectCount updateObjectCount objects set_objects];
          rewrite length_app; simpl; lia|].
  unfold valid_draws in Hrnd.
  apply andb_prop in Hrnd. destruct Hrnd as [Hrnd Hvy].
  apply andb_prop in Hrnd. destruct Hrnd as [Hrnd Hvx].
  apply andb_prop in Hrnd. destruct Hrnd as [Hrad Hhue].
  apply unit_draw_real in Hrad, Hhue, Hvx, Hvy.
  cbn [x y vx vy radius mass color hue restitution friction]. real_ops.
  repeat split; lra.
Qed.

Lemma spawn_appends_one_witness :
  exists o,
    objects (snd (addObjectAt 50 10 middle_draws (@constructor R _))) = [o]
    /\ x o = 50 /\ y o = 10 /\ 10 <= radius o <= 25.
Proof.
  assert (Hroom : (length (objects (@constructor R _)) < 50)%nat)
    by (simpl; lia).
  assert (Hrnd : valid_draws middle_draws = true).
  { unfold valid_draws, middle_draws.
    cbn [draw_radius draw_hue draw_vx draw_vy].
    rewrite unit_draw_half. reflexivity. }
  destruct (spawn_appends_one constructor 50 10 middle_draws Hroom Hrnd)
    as (o & Hobjs & _ & Hx & Hy & Hr & _).
  exists o. repeat split; try assumption; apply Hr.
Defined.

(** *** Rest *)

Lemma integrate_at_rest (w : World R) (dt : R) (o : Body R) :
  gravityEnabled w = false -> vx o = 0 -> vy o = 0 -> integrate w dt o = o.
Proof.
  intros Hoff Hvx Hvy. unfold integrate. rewrite Hoff.
  destruct o as [ox oy ovx ovy orad om oc ore ofr]. simpl in Hvx, Hvy. subst.
  unfold set_x, set_y, set_vx, set_vy. real_ops.
  cbn [x y vx vy radius mass color restitution friction].
  f_equal; ring.
Qed.

(** X11: with gravity switched off, a world in which every body is still and
    inside the canvas and no two bodies overlap is a fixed point of [update],
    for every elapsed time. *)
Theorem world_at_rest_stays (w : World R) (e : R) :
  gravityEnabled w = false ->
  Forall (Measures.at_rest (canvas w)) (objects w) ->
  no_overlap (objects w) ->
  update e w = w.
Proof.
  intros Hoff Hrest Hfar.
  assert (Hmove : move_objects (timestep e) w = objects w).
  { rewrite move_objects_map. rewrite <- (list_fmap_id (objects w)) at 2.
    apply Forall_fmap_ext_1. apply (Forall_impl _ _ _ Hrest).
    intros o (Hvx & Hvy & Hin). cbn [id].
    rewrite (integrate_at_rest w (timestep e) o Hoff Hvx Hvy).
    apply boundary_fixes_in_bounds, Hin. }
  unfold update. rewrite Hmove, (collide_objects_apart _ Hfar).
  apply set_objects_same.
Qed.

Lemma world_at_rest_stays_witness :
  update (1667 / 100)
    (toggleGravity (set_objects [Measures.still_body] constructor))
  = toggleGravity (set_objects [Measures.still_body] constructor).
Proof.
  apply world_at_rest_stays.
  - reflexivity.
  - constructor; [|constructor].
    unfold Measures.at_rest, in_bounds.
    cbn [canvas toggleGravity set_objects].
    destruct constructor_canvas as [-> ->].
    cbn [x y vx vy radius Measures.still_body]. repeat split; lra.
  - intros i j a b Hij _ Hj. apply lookup_lt_Some in Hj.
    cbn [objects toggleGravity set_objects length] in Hj. lia.
Defined.

(** *** The clock of the render loop *)

Lemma timestep_range (e : R) : 0 <= e -> 0 <= timestep e <= 2.
Proof.
  intros He. rewrite timestep_real.
  split; [apply Rmin_glb; lra|apply Rmin_r].
Qed.

Lemma monotone_steps (evs : list (RenderLoop.Event R)) :
  forall (r : RenderLoop.Runner R) (prev : R),
    (RenderLoop.isRunning r = true -> RenderLoop.lastTime r <= prev) ->
    Measures.monotone_clock prev evs ->
    Forall (fun e => 0 <= e) (RenderLoop.elapsed_times evs r).
Proof.
  induction evs as [|[now0 now1 handle|now handle] evs IH];
    intros r prev Hlast Hclock; simpl; [constructor| |].
  - destruct Hclock as (H0 & H1 & Hclock).
    apply Forall_app. split.
    + destruct (RenderLoop.isRunning r); [constructor|].
      constructor; [real_ops; lra|constructor].
    + apply (IH _ now1); [|exact Hclock].
      unfold RenderLoop.toggle, RenderLoop.start, RenderLoop.stop,
        RenderLoop.render.
      destruct (RenderLoop.isRunning r); simpl; [discriminate|].
      intros _. lra.
  - destruct Hclock as (H0 & Hclock).
    apply Forall_app. split.
    + destruct (RenderLoop.isRunning r) eqn:Hrun; [|constructor].
      specialize (Hlast eq_refl).
      constructor; [real_ops; lra|constructor].
    + apply (IH _ now); [|exact Hclock].
      unfold RenderLoop.render.
      destruct (RenderLoop.isRunning r) eqn:Hrun; simpl.
      * intros _. lra.
      * rewrite Hrun. discriminate.
Qed.

(** X12: when the clock never runs backwards, every call of [update] made by
    the render loop, from the first click on, gets a non-negative elapsed time
    and so steps the world by a factor between 0 and 2.  The calls are those
    listed by [elapsed_times], which [elapsed_times_sound] relates to the
    state. *)
Theorem render_loop_steps_forward (evs : list (RenderLoop.Event R)) :
  Measures.monotone_clock 0 evs ->
  Forall (fun e => 0 <= e /\ 0 <= timestep e <= 2)
    (RenderLoop.elapsed_times evs RenderLoop.new_PhysicsSimulation).
Proof.
  intros Hclock.
  apply (Forall_impl (fun e => 0 <= e)).
  - apply (monotone_steps evs _ 0); [discriminate|exact Hclock].
  - intros e He. split; [exact He|apply timestep_range, He].
Qed.

Lemma render_loop_steps_forward_witness :
  Forall (fun e => 0 <= e /\ 0 <= timestep e <= 2)
    (RenderLoop.elapsed_times
       [RenderLoop.Click 100 101 1; RenderLoop.Frame 117 2;
        RenderLoop.Click 130 131 3; RenderLoop.Frame 140 4]
       RenderLoop.new_PhysicsSimulation).
Proof.
  apply render_loop_steps_forward. simpl. repeat split; lra.
Defined.

End Mechanics.

(** ** The tilt parallax and the particles, over the real numbers *)

Module Motion.

Import OverReals.

Local Open Scope R_scope.

Lemma leb_true (a b : R) : RealMath.leb a b = true <-> a <= b.
Proof.
  unfold RealMath.leb. destruct (Rle_dec a b); split;
    (lra || discriminate || auto).
Qed.

Lemma leb_false (a b : R) : RealMath.leb a b = false <-> b < a.
Proof.
  unfold RealMath.leb. destruct (Rle_dec a b); split;
    (lra || discriminate || auto).
Qed.

Ltac real_math :=
  cbn [Math_max Math_abs lte real_math] in *; real_ops.

(** Case analysis on every [<=] of the goal. *)
Ltac cases_leb :=
  repeat match goal with
    | |- context [RealMath.leb ?a ?b] =>
        let C := fresh "C" in
        destruct (RealMath.leb a b) eqn:C;
        [apply leb_true in C | apply leb_false in C]
    end.

Lemma clamp_real (v lo hi : R) : Parallax.clamp v lo hi = Rmin (Rmax v lo) hi.
Proof. reflexivity. Qed.

(** X13: [utils.clamp] never returns more than [max]; when [min <= max] the
    result lies between them and a value already in range is returned as it
    is; when the bounds are crossed ([max < min]) the result is [max]. *)
Theorem clamp_range (v lo hi : R) :
  Parallax.clamp v lo hi <= hi
  /\ (lo <= hi ->
      lo <= Parallax.clamp v lo hi
      /\ (lo <= v <= hi -> Parallax.clamp v lo hi = v))
  /\ (hi < lo -> Parallax.clamp v lo hi = hi).
Proof.
  rewrite clamp_real. unfold Rmin, Rmax.
  repeat split; intros; repeat destruct (Rle_dec _ _); lra.
Qed.

Lemma clamp_range_witness :
  -45 <= 45
  /\ -45 <= Parallax.clamp 90 (-45) 45 <= 45
  /\ Parallax.clamp 10 (-45) 45 = 10.
Proof.
  destruct (clamp_range 90 (-45) 45) as (Hhi & Hin & _).
  destruct (clamp_range 10 (-45) 45) as (_ & Hin' & _).
  assert (Hb : -45 <= 45) by lra.
  split; [exact Hb|]. split; [split; [apply (Hin Hb)|exact Hhi]|].
  apply (Hin' Hb). lra.
Defined.

Lemma Rmult_opp_one (v : R) : Rabs (v * (-1)) = Rabs v.
Proof. replace (v * (-1)) with (- v) by ring. apply Rabs_Ropp. Qed.

Lemma clamp_in_range (v : R) :
  -45 <= v <= 45 -> Parallax.clamp v (-45) 45 = v.
Proof.
  intros Hin. rewrite clamp_real. unfold Rmin, Rmax.
  repeat destruct (Rle_dec _ _); lra.
Qed.

Lemma normalized_tilt (v : R) :
  -20 <= Parallax.clamp v (-45) 45 / 45 * 20 <= 20.
Proof.
  rewrite clamp_real. unfold Rmin, Rmax.
  repeat destruct (Rle_dec _ _); lra.
Qed.

(** X14: whatever the tilt of the device, the transform written by
    [updateParallax] moves the background by at most 20 pixels in each
    direction, in proportion to the tilt while it is within 45 degrees;
    without the element, with reduced motion or with a missing reading the
    transform is left as it was. *)
Theorem parallax_within_20px (hasElement reducedMotion : bool)
  (beta gamma : option R) (transform : option (R * R)) :
  (hasElement = true -> reducedMotion = false ->
   forall b g, beta = Some b -> gamma = Some g ->
     exists tx ty,
       Parallax.updateParallax hasElement reducedMotion beta gamma transform
       = Some (tx, ty)
       /\ -20 <= tx <= 20 /\ -20 <= ty <= 20
       /\ (-45 <= g <= 45 -> tx = g / 45 * 20)
       /\ (-45 <= b <= 45 -> ty = b / 45 * 20))
  /\ (hasElement = false \/ reducedMotion = true \/ beta = None
      \/ gamma = None ->
      Parallax.updateParallax hasElement reducedMotion beta gamma transform
      = transform).
Proof.
  split.
  - intros -> -> b g -> ->. unfold Parallax.updateParallax. real_ops.
    cbn [negb orb].
    eexists. eexists. split; [reflexivity|].
    split; [apply normalized_tilt|]. split; [apply normalized_tilt|].
    split; intros Hin; rewrite (clamp_in_range _ Hin); reflexivity.
  - unfold Parallax.updateParallax.
    destruct hasElement, reducedMotion, beta, gamma; intros Hskip;
      try reflexivity.
    destruct Hskip as [Hs | [Hs | [Hs | Hs]]]; discriminate.
Qed.

Lemma parallax_within_20px_witness :
  exists tx ty,
    Parallax.updateParallax true false (Some 30) (Some (-90)) None
    = Some (tx, ty)
    /\ -20 <= tx <= 20 /\ ty = 30 / 45 * 20.
Proof.
  destruct (parallax_within_20px true false (Some 30) (Some (-90)) None)
    as [Hwrite _].
  destruct (Hwrite eq_refl eq_refl 30 (-90) eq_refl eq_refl)
    as (tx & ty & Heq & Htx & _ & _ & Hty).
  exists tx, ty. split; [exact Heq|]. split; [exact Htx|]. apply Hty. lra.
Defined.

(** *** Particles *)

(** X15: one frame adds the velocity to the position of a particle, without
    clamping it, and keeps its speed on each axis.  A particle that was
    strictly inside the canvas and reaches or passes an edge is turned back
    towards the inside; one that stays strictly inside keeps its velocity. *)
Theorem particle_turns_back (width height : R)
  (p : ParticleSystem.Particle R) :
  let p' := ParticleSystem.move_particle width height p in
  ParticleSystem.x p' = ParticleSystem.x p + ParticleSystem.vx p
  /\ ParticleSystem.y p' = ParticleSystem.y p + ParticleSystem.vy p
  /\ Rabs (ParticleSystem.vx p') = Rabs (ParticleSystem.vx p)
  /\ Rabs (ParticleSystem.vy p') = Rabs (ParticleSystem.vy p)
  /\ (0 < ParticleSystem.x p < width ->
      (ParticleSystem.x p' <= 0 -> 0 < ParticleSystem.vx p')
      /\ (width <= ParticleSystem.x p' -> ParticleSystem.vx p' < 0)
      /\ (0 < ParticleSystem.x p' < width ->
          ParticleSystem.vx p' = ParticleSystem.vx p))
  /\ (0 < ParticleSystem.y p < height ->
      (ParticleSystem.y p' <= 0 -> 0 < ParticleSystem.vy p')
      /\ (height <= ParticleSystem.y p' -> ParticleSystem.vy p' < 0)
      /\ (0 < ParticleSystem.y p' < height ->
          ParticleSystem.vy p' = ParticleSystem.vy p)).
Proof.
  intros p'. unfold p', ParticleSystem.move_particle.
  cbn [ParticleSystem.x ParticleSystem.y ParticleSystem.vx ParticleSystem.vy].
  real_math.
  split; [reflexivity|]. split; [reflexivity|].
  cases_leb; cbn [orb]; rewrite ?Rmult_opp_one;
    (split; [reflexivity|]); (split; [reflexivity|]);
    repeat split; intros; lra.
Qed.

Lemma particle_turns_back_witness :
  let p := {| ParticleSystem.x := 1; ParticleSystem.y := 50;
              ParticleSystem.vx := -2; ParticleSystem.vy := 1;
              ParticleSystem.radius := 2; ParticleSystem.opacity := 1 / 2 |} in
  ParticleSystem.x (ParticleSystem.move_particle 300 150 p) = 1 + -2
  /\ 0 < ParticleSystem.vx (ParticleSystem.move_particle 300 150 p)
  /\ ParticleSystem.vy (ParticleSystem.move_particle 300 150 p) = 1.
Proof.
  intros p.
  destruct (particle_turns_back 300 150 p) as (Hx & Hy & _ & _ & Hxin & Hyin).
  assert (Hx0 : 0 < ParticleSystem.x p < 300) by (simpl; lra).
  assert (Hy0 : 0 < ParticleSystem.y p < 150) by (simpl; lra).
  destruct (Hxin Hx0) as (Hleft & _ & _).
  destruct (Hyin Hy0) as (_ & _ & Hstay).
  split; [exact Hx|]. split.
  - apply Hleft. rewrite Hx. simpl. lra.
  - apply Hstay. rewrite Hy. simpl. lra.
Defined.

End Motion.

(** ** The carousel *)

Section CarouselFacts.

Context {num : Type} `{JsMath num}.

Import Carousel.

Local Open Scope Z_scope.

Lemma updateCarousel_consistent (n : nat) (c : State num) :
  slides c = n -> 0 <= currentIndex c < Z.of_nat n ->
  consistent n (updateCarousel c).
Proof.
  intros Hn Hi. unfold consistent, updateCarousel. simpl. rewrite Hn.
  repeat split; (reflexivity || lia).
Qed.

Lemma next_consistent (n : nat) (c : State num) :
  consistent n c -> consistent n (next c).
Proof.
  intros (Hn & Hi & _). unfold next.
  apply updateCarousel_consistent; simpl; [exact Hn|].
  rewrite Hn. apply Z.rem_bound_pos; lia.
Qed.

Lemma prev_consistent (n : nat) (c : State num) :
  consistent n c -> consistent n (prev c).
Proof.
  intros (Hn & Hi & _). unfold prev.
  apply updateCarousel_consistent; simpl; [exact Hn|].
  rewrite Hn. apply Z.rem_bound_pos; lia.
Qed.

Lemma deliver_consistent (n : nat) (c : State num) (ev : Event num) :
  possible n ev -> consistent n c -> consistent n (deliver c ev).
Proof.
  intros Hev Hc. destruct ev as [ex|ex w|w| | |index]; simpl.
  - destruct Hc as (Hn & Hi & Ht & Ha & Hh).
    repeat split; simpl; (assumption || lia).
  - unfold handleMove. destruct (isPointerDown c); simpl; [|exact Hc].
    destruct Hc as (Hn & Hi & Ht & Ha & Hh).
    repeat split; simpl; (assumption || lia).
  - unfold handleEnd. destruct (isPointerDown c); simpl; [|exact Hc].
    assert (Hup : consistent n
              {| slides := slides c; currentIndex := currentIndex c;
                 isPointerDown := false; startX := startX c;
                 currentX := currentX c; translateX := translateX c;
                 trackOffset := trackOffset c; transition := transition c;
                 active := active c; ariaHidden := ariaHidden c |})
      by (destruct Hc as (Hn & Hi & Ht & Ha & Hh);
          repeat split; simpl; (assumption || lia)).
    destruct (lt _ _); [destruct (lt _ _)|].
    + apply prev_consistent, Hup.
    + apply next_consistent, Hup.
    + destruct Hup as (Hn & Hi & _). apply updateCarousel_consistent; assumption.
  - apply prev_consistent, Hc.
  - apply next_consistent, Hc.
  - destruct Hc as (Hn & _). unfold goTo.
    apply updateCarousel_consistent; simpl; [exact Hn|].
    simpl in Hev. lia.
Qed.

Lemma marks_count (index : Z) (n start : nat) :
  length (filter (fun b => b = true)
            ((fun i => Z.of_nat i =? index) <$> seq start n))
  = if ((Z.of_nat start <=? index) && (index <? Z.of_nat (start + n)))%bool
    then 1%nat else 0%nat.
Proof.
  revert start. induction n as [|n IH]; intros start.
  - simpl.
    destruct (Z.leb_spec (Z.of_nat start) index),
      (Z.ltb_spec index (Z.of_nat (start + 0))); simpl; (reflexivity || lia).
  - change (seq start (S n)) with (start :: seq (S start) n).
    rewrite fmap_cons, filter_cons.
    destruct (decide ((Z.of_nat start =? index) = true)) as [Heq|Hne];
      cbn [length]; rewrite IH.
    + apply Z.eqb_eq in Heq.
      destruct (Z.leb_spec (Z.of_nat (S start)) index),
        (Z.ltb_spec index (Z.of_nat (S start + n))),
        (Z.leb_spec (Z.of_nat start) index),
        (Z.ltb_spec index (Z.of_nat (start + S n))); simpl;
        (reflexivity || lia).
    + apply not_true_is_false, Z.eqb_neq in Hne.
      destruct (Z.leb_spec (Z.of_nat (S start)) index),
        (Z.ltb_spec index (Z.of_nat (S start + n))),
        (Z.leb_spec (Z.of_nat start) index),
        (Z.ltb_spec index (Z.of_nat (start + S n))); simpl;
        (reflexivity || lia).
Qed.

Lemma count_negb (l : list bool) :
  length (filter (fun b => b = false) (negb <$> l))
  = length (filter (fun b => b = true) l).
Proof.
  induction l as [|b l IH]; [reflexivity|].
  rewrite fmap_cons, !filter_cons.
  destruct b; simpl negb;
    repeat match goal with
           | |- context [decide ?P] => destruct (decide P)
           end; try congruence; cbn [length]; rewrite ?IH; reflexivity.
Qed.

(** X16: whatever events reach a carousel with at least one slide, the
    current index stays a valid slide number, [translateX] is minus 100 times
    the index, exactly one indicator is active and exactly one slide is not
    hidden from assistive technology, namely the current one. *)
Theorem carousel_stays_consistent (n : nat) (evs : list (Event num)) :
  (0 < n)%nat ->
  Forall (possible n) evs ->
  let c := fold_left deliver evs (init n) in
  0 <= currentIndex c < Z.of_nat n
  /\ translateX c = - currentIndex c * 100
  /\ active c !! Z.to_nat (currentIndex c) = Some true
  /\ ariaHidden c !! Z.to_nat (currentIndex c) = Some false
  /\ length (filter (fun b => b = true) (active c)) = 1%nat
  /\ length (filter (fun b => b = false) (ariaHidden c)) = 1%nat.
Proof.
  intros Hn Hevs c.
  assert (Hc : consistent n c).
  { unfold c. clear c.
    assert (Hinit : consistent n (init n))
      by (apply updateCarousel_consistent; simpl; [reflexivity|lia]).
    revert Hinit. generalize (init n).
    induction Hevs as [|ev evs Hev _ IH]; intros c0 Hc0; simpl; [exact Hc0|].
    apply IH, deliver_consistent; assumption. }
  destruct Hc as (_ & Hi & Ht & Ha & Hh).
  assert (Hmark : marks n (currentIndex c) !! Z.to_nat (currentIndex c)
                  = Some true).
  { unfold marks. rewrite list_lookup_fmap, lookup_seq_lt by lia. simpl.
    f_equal. apply Z.eqb_eq. lia. }
  assert (Hcount : length (filter (fun b => b = true) (marks n (currentIndex c)))
                   = 1%nat).
  { unfold marks. rewrite marks_count.
    destruct (Z.leb_spec (Z.of_nat 0) (currentIndex c)),
      (Z.ltb_spec (currentIndex c) (Z.of_nat (0 + n))); simpl;
      (reflexivity || lia). }
  split; [exact Hi|]. split; [exact Ht|].
  rewrite Ha, Hh. split; [exact Hmark|].
  split; [rewrite list_lookup_fmap, Hmark; reflexivity|].
  split; [exact Hcount|].
  rewrite count_negb. exact Hcount.
Qed.

Lemma rem_up_down (i n : Z) :
  0 <= i < n -> Z.rem (Z.rem (i + 1) n - 1 + n) n = i.
Proof.
  intros Hi. rewrite (Z.rem_mod_nonneg (i + 1) n) by lia.
  destruct (Z.eq_dec (i + 1) n) as [Heq|Hne].
  - rewrite Heq, Z_mod_same_full. rewrite Z.rem_small by lia. lia.
  - rewrite (Z.mod_small (i + 1) n) by lia.
    rewrite Z.rem_mod_nonneg by lia.
    replace (i + 1 - 1 + n) with (i + 1 * n) by lia.
    rewrite Z_mod_plus_full. apply Z.mod_small. lia.
Qed.

Lemma rem_down_up (i n : Z) :
  0 <= i < n -> Z.rem (Z.rem (i - 1 + n) n + 1) n = i.
Proof.
  intros Hi. rewrite (Z.rem_mod_nonneg (i - 1 + n) n) by lia.
  destruct (Z.eq_dec i 0) as [Heq|Hne].
  - subst i. rewrite (Z.mod_small (0 - 1 + n) n) by lia.
    replace (0 - 1 + n + 1) with n by lia. apply Z.rem_same. lia.
  - replace (i - 1 + n) with (i - 1 + 1 * n) by lia.
    rewrite Z_mod_plus_full, (Z.mod_small (i - 1) n) by lia.
    rewrite Z.rem_small by lia. lia.
Qed.

(** X17: on a valid index, [prev] undoes [next] and [next] undoes [prev];
    [next] on the last slide wraps to the first and [prev] on the first
    wraps to the last. *)
Theorem next_prev_round_trip (c : State num) :
  0 <= currentIndex c < Z.of_nat (slides c) ->
  currentIndex (prev (next c)) = currentIndex c
  /\ currentIndex (next (prev c)) = currentIndex c
  /\ (currentIndex c = Z.of_nat (slides c) - 1 -> currentIndex (next c) = 0)
  /\ (currentIndex c = 0 ->
      currentIndex (prev c) = Z.of_nat (slides c) - 1).
Proof.
  intros Hi. unfold next, prev. simpl.
  split; [apply rem_up_down, Hi|]. split; [apply rem_down_up, Hi|].
  split; intros Heq; rewrite Heq.
  - replace (Z.of_nat (slides c) - 1 + 1) with (Z.of_nat (slides c)) by lia.
    apply Z.rem_same. lia.
  - replace (0 - 1 + Z.of_nat (slides c)) with (Z.of_nat (slides c) - 1)
      by lia.
    apply Z.rem_small. lia.
Qed.

Lemma iter_next (k : nat) (c : State num) :
  0 <= currentIndex c < Z.of_nat (slides c) ->
  slides (Nat.iter k next c) = slides c
  /\ currentIndex (Nat.iter k next c)
     = (currentIndex c + Z.of_nat k) mod Z.of_nat (slides c).
Proof.
  intros Hi. induction k as [|k [IHs IHi]].
  - simpl. split; [reflexivity|]. rewrite Z.add_0_r, Z.mod_small; lia.
  - rewrite Nat.iter_succ. set (c' := Nat.iter k next c) in *. clearbody c'.
    unfold next. simpl. rewrite IHs, IHi.
    split; [reflexivity|].
    rewrite Z.rem_mod_nonneg.
    + rewrite Zplus_mod_idemp_l. f_equal. lia.
    + assert (Hb := Z.mod_pos_bound (currentIndex c + Z.of_nat k)
                      (Z.of_nat (slides c))). lia.
    + lia.
Qed.

(** X18: pressing the right arrow as many times as there are slides brings
    the carousel back to the slide it started from. *)
Theorem full_cycle (c : State num) :
  0 <= currentIndex c < Z.of_nat (slides c) ->
  currentIndex (Nat.iter (slides c) next c) = currentIndex c.
Proof.
  intros Hi. destruct (iter_next (slides c) c Hi) as [_ ->].
  replace (currentIndex c + Z.of_nat (slides c))
    with (currentIndex c + 1 * Z.of_nat (slides c)) by lia.
  rewrite Z_mod_plus_full. apply Z.mod_small, Hi.
Qed.

End CarouselFacts.

(** *** Swipes, over the real numbers *)

Module Swipe.

Import OverReals Motion Carousel.

Local Open Scope R_scope.

(** X19: a drag from [x0] to [x1] on a container of width [w]: when it is no
    longer than a fifth of the width the slide stays and the track snaps back
    to its place; a longer drag to the right shows the previous slide, a
    longer drag to the left the next one.  A release that no press preceded
    changes nothing. *)
Theorem swipe_outcome (c : State R) (x0 x1 w : R) :
  0 <= w ->
  let c' := handleEnd w (handleMove x1 w (handleStart x0 c)) in
  isPointerDown c' = false
  /\ (Rabs (x1 - x0) <= w * (2 / 10) ->
      currentIndex c' = currentIndex c
      /\ trackOffset c' = IZR (- currentIndex c * 100))
  /\ (x1 - x0 > w * (2 / 10) -> currentIndex c' = currentIndex (prev c))
  /\ (x0 - x1 > w * (2 / 10) -> currentIndex c' = currentIndex (next c))
  /\ (isPointerDown c = false -> handleEnd w c = c).
Proof.
  intros Hw c'. unfold c', handleEnd, handleMove, handleStart.
  cbn [isPointerDown negb currentX startX currentIndex slides translateX].
  real_math.
  split; [|split; [|split; [|split]]].
  - repeat match goal with
           | |- context [Real.ltb ?a ?b] => destruct (Real.ltb a b)
           end; reflexivity.
  - intros Hshort.
    destruct (Real.ltb (w * (2 / 10)) (Rabs (x1 - x0))) eqn:C;
      [apply ltb_true in C; lra|].
    cbn [updateCarousel currentIndex trackOffset]. real_ops.
    split; reflexivity.
  - intros Hright.
    assert (Habs : Rabs (x1 - x0) = x1 - x0) by (apply Rabs_pos_eq; lra).
    rewrite Habs.
    destruct (Real.ltb (w * (2 / 10)) (x1 - x0)) eqn:C;
      [|apply ltb_false in C; lra].
    destruct (Real.ltb 0 (x1 - x0)) eqn:C0; [|apply ltb_false in C0; lra].
    reflexivity.
  - intros Hleft.
    assert (Habs : Rabs (x1 - x0) = x0 - x1)
      by (rewrite Rabs_left by lra; ring).
    rewrite Habs.
    destruct (Real.ltb (w * (2 / 10)) (x0 - x1)) eqn:C;
      [|apply ltb_false in C; lra].
    destruct (Real.ltb 0 (x1 - x0)) eqn:C0; [apply ltb_true in C0; lra|].
    reflexivity.
  - intros ->. reflexivity.
Qed.

Lemma swipe_outcome_witness :
  currentIndex
    (handleEnd 300 (handleMove 110 300 (handleStart 100 Measures.second_of_three)))
  = currentIndex Measures.second_of_three
  /\ currentIndex
       (handleEnd 300 (handleMove 10 300 (handleStart 100 Measures.second_of_three)))
     = currentIndex (next Measures.second_of_three).
Proof.
  assert (Hw : 0 <= 300) by lra.
  destruct (swipe_outcome Measures.second_of_three 100 110 300 Hw)
    as (_ & Hshort & _).
  destruct (swipe_outcome Measures.second_of_three 100 10 300 Hw)
    as (_ & _ & _ & Hleft & _).
  split.
  - apply Hshort. rewrite Rabs_pos_eq; lra.
  - apply Hleft. lra.
Defined.

End Swipe.

(** ** The vector helpers of WebGL3D, over the real numbers *)

Module Vectors.

Import OverReals WebGL3D Measures.

Local Open Scope R_scope.

Lemma dot_self_nonneg (v : Vec3) : 0 <= dot v v.
Proof. destruct v as [[v0 v1] v2]. unfold dot. nra. Qed.

(** [normalize] on a vector that is not zero: a division by its length. *)
Lemma normalize_nonzero (v0 v1 v2 : R) :
  0 < dot (v0, v1, v2) (v0, v1, v2) ->
  exists l, 0 < l /\ l * l = dot (v0, v1, v2) (v0, v1, v2)
            /\ normalize (v0, v1, v2) = (v0 / l, v1 / l, v2 / l).
Proof.
  intros Hpos. exists (sqrt (v0 * v0 + v1 * v1 + v2 * v2)).
  unfold dot in *.
  assert (Hl : 0 < sqrt (v0 * v0 + v1 * v1 + v2 * v2))
    by (apply sqrt_lt_R0; exact Hpos).
  split; [exact Hl|]. split; [apply sqrt_sqrt; lra|].
  unfold normalize. real_ops.
  destruct (Real.ltb 0 (sqrt (v0 * v0 + v1 * v1 + v2 * v2))) eqn:C;
    [reflexivity|apply ltb_false in C; lra].
Qed.

(** X20: [normalize] returns the zero vector for the zero vector, without
    dividing, and for every other vector the vector of length 1 that points
    the same way. *)
Theorem normalize_unit (v : Vec3) :
  (dot v v = 0 -> normalize v = (0, 0, 0))
  /\ (0 < dot v v ->
      dot (normalize v) (normalize v) = 1
      /\ cross v (normalize v) = (0, 0, 0)
      /\ 0 < dot v (normalize v)).
Proof.
  destruct v as [[v0 v1] v2]. split.
  - intros Hzero. unfold dot in Hzero. unfold normalize. real_ops.
    rewrite Hzero, sqrt_0.
    destruct (Real.ltb 0 0) eqn:C; [apply ltb_true in C; lra|reflexivity].
  - intros Hpos.
    destruct (normalize_nonzero v0 v1 v2 Hpos) as (l & Hl & Hll & ->).
    unfold dot in *. unfold cross. real_ops.
    split; [|split].
    + replace (v0 / l * (v0 / l) + v1 / l * (v1 / l) + v2 / l * (v2 / l))
        with ((v0 * v0 + v1 * v1 + v2 * v2) / (l * l)) by (field; lra).
      rewrite Hll. field. lra.
    + f_equal; [f_equal|]; field; lra.
    + replace (v0 * (v0 / l) + v1 * (v1 / l) + v2 * (v2 / l))
        with ((v0 * v0 + v1 * v1 + v2 * v2) / l) by (field; lra).
      apply Rdiv_lt_0_compat; lra.
Qed.

Lemma normalize_unit_witness :
  dot (normalize (0, 0, 5)) (normalize (0, 0, 5)) = 1
  /\ 0 < dot (0, 0, 5) (normalize (0, 0, 5)).
Proof.
  destruct (normalize_unit (0, 0, 5)) as [_ Hnz].
  assert (Hpos : 0 < dot (0, 0, 5) (0, 0, 5)) by (unfold dot; lra).
  destruct (Hnz Hpos) as (Hunit & _ & Hdir). split; assumption.
Defined.

Lemma cross_real (a0 a1 a2 b0 b1 b2 : R) :
  cross (a0, a1, a2) (b0, b1, b2)
  = (a1 * b2 - a2 * b1, a2 * b0 - a0 * b2, a0 * b1 - a1 * b0).
Proof. reflexivity. Qed.

(** X21: [cross(a, b)] is orthogonal to [a] and to [b], changes sign when the
    arguments are swapped, and its squared length is
    [|a|^2 |b|^2 - (a . b)^2]. *)
Theorem cross_orthogonal (a b : Vec3) :
  dot a (cross a b) = 0
  /\ dot b (cross a b) = 0
  /\ dot (cross a b) (cross b a) = - dot (cross a b) (cross a b)
  /\ dot (cross a b) (cross a b) = dot a a * dot b b - dot a b * dot a b.
Proof.
  destruct a as [[a0 a1] a2], b as [[b0 b1] b2].
  rewrite !cross_real. unfold dot. repeat split; ring.
Qed.

Lemma normalize_length_one (v : Vec3) :
  0 < dot v v -> dot (normalize v) (normalize v) = 1.
Proof.
  destruct v as [[v0 v1] v2]. intros Hpos.
  destruct (normalize_nonzero v0 v1 v2 Hpos) as (l & Hl & Hll & ->).
  unfold dot in *.
  replace (v0 / l * (v0 / l) + v1 / l * (v1 / l) + v2 / l * (v2 / l))
    with ((v0 * v0 + v1 * v1 + v2 * v2) / (l * l)) by (field; lra).
  rewrite Hll. field. lra.
Qed.

Lemma cross_dot (a b : Vec3) :
  dot a (cross a b) = 0 /\ dot b (cross a b) = 0.
Proof.
  destruct a as [[a0 a1] a2], b as [[b0 b1] b2].
  rewrite cross_real. unfold dot. split; ring.
Qed.

Lemma cross_lagrange (a b : Vec3) :
  dot (cross a b) (cross a b) = dot a a * dot b b - dot a b * dot a b.
Proof.
  destruct a as [[a0 a1] a2], b as [[b0 b1] b2].
  rewrite cross_real. unfold dot. ring.
Qed.

(** The three axes that [createLookAtMatrix] computes are orthonormal. *)
Lemma axes_orthonormal (e0 e1 e2 t0 t1 t2 : R) (up : Vec3) :
  0 < dot (e0 - t0, e1 - t1, e2 - t2) (e0 - t0, e1 - t1, e2 - t2) ->
  0 < dot (cross up (normalize (e0 - t0, e1 - t1, e2 - t2)))
        (cross up (normalize (e0 - t0, e1 - t1, e2 - t2))) ->
  let '(xAxis, yAxis, zAxis) := lookAtAxes (e0, e1, e2) (t0, t1, t2) up in
  dot xAxis xAxis = 1 /\ dot yAxis yAxis = 1 /\ dot zAxis zAxis = 1
  /\ dot xAxis yAxis = 0 /\ dot yAxis zAxis = 0 /\ dot xAxis zAxis = 0.
Proof.
  intros Hsight Hup.
  unfold lookAtAxes. real_ops.
  set (z := normalize (e0 - t0, e1 - t1, e2 - t2)) in *.
  pose proof (normalize_length_one _ Hsight) as Hzz. fold z in Hzz.
  pose proof (normalize_length_one (cross up z) Hup) as Hxx.
  destruct (cross_dot up z) as (_ & Hcz).
  set (c := cross up z) in *. set (xa := normalize c) in *.
  destruct (cross_dot z xa) as (Hyz & Hyx).
  pose proof (cross_lagrange z xa) as Hyy.
  assert (Hxz : dot xa z = 0).
  { destruct c as [[c0 c1] c2].
    assert (Hc : 0 < dot (c0, c1, c2) (c0, c1, c2)) by exact Hup.
    destruct (normalize_nonzero c0 c1 c2 Hc) as (l & Hl & _ & Hn).
    unfold xa. rewrite Hn. destruct z as [[z0 z1] z2]. unfold dot in *.
    replace (c0 / l * z0 + c1 / l * z1 + c2 / l * z2)
      with ((z0 * c0 + z1 * c1 + z2 * c2) / l) by (field; lra).
    rewrite Hcz. field. lra. }
  assert (Hzx : dot z xa = 0).
  { destruct z as [[z0 z1] z2], xa as [[x0 x1] x2]. unfold dot in *. lra. }
  set (ya := cross z xa) in *.
  destruct xa as [[x0 x1] x2] eqn:Exa, ya as [[y0 y1] y2] eqn:Eya,
    z as [[z0 z1] z2] eqn:Ez.
  split; [exact Hxx|]. split; [rewrite Hyy, Hzz, Hxx, Hzx; ring|].
  split; [exact Hzz|].
  split; [unfold dot in *; lra|]. split; [unfold dot in *; lra|].
  exact Hxz.
Qed.

(** *** The conversion to binary32 *)

(** The entries of an array of length 1 lie between -1 and 1. *)
Lemma unit_entries (v0 v1 v2 : R) :
  dot (v0, v1, v2) (v0, v1, v2) = 1 ->
  Rabs v0 <= 1 /\ Rabs v1 <= 1 /\ Rabs v2 <= 1.
Proof.
  unfold dot. intros Hunit.
  repeat split; apply Rabs_le; split; nra.
Qed.

Lemma product_error (d a b a' b' : R) :
  Rabs a <= 1 -> Rabs b <= 1 ->
  Rabs (a' - a) <= d -> Rabs (b' - b) <= d ->
  Rabs (a' * b' - a * b) <= 2 * d + d * d.
Proof.
  intros Ha Hb Hea Heb.
  replace (a' * b' - a * b)
    with (a * (b' - b) + (a' - a) * b + (a' - a) * (b' - b)) by ring.
  pose proof (Rabs_pos a) as Pa. pose proof (Rabs_pos b) as Pb.
  pose proof (Rabs_pos (a' - a)) as Pea. pose proof (Rabs_pos (b' - b)) as Peb.
  eapply Rle_trans; [apply Rabs_triang|].
  eapply Rle_trans; [apply Rplus_le_compat_r, Rabs_triang|].
  rewrite !Rabs_mult. nra.
Qed.

(** The scalar product of two converted arrays of length 1 is the one of the
    arrays to within [6 d + 3 d^2], [d] being the error of a conversion. *)
Lemma rounded_dot (round32 : R -> R) (d : R) (a b : Vec3) :
  (forall v, Rabs v <= 1 -> Rabs (round32 v - v) <= d) ->
  dot a a = 1 -> dot b b = 1 ->
  Rabs (dot (round_each round32 a) (round_each round32 b) - dot a b)
  <= 6 * d + 3 * (d * d).
Proof.
  intros Herr Ha Hb. destruct a as [[a0 a1] a2], b as [[b0 b1] b2].
  destruct (unit_entries _ _ _ Ha) as (Ha0 & Ha1 & Ha2).
  destruct (unit_entries _ _ _ Hb) as (Hb0 & Hb1 & Hb2).
  unfold round_each, dot.
  pose proof (product_error d a0 b0 _ _ Ha0 Hb0 (Herr a0 Ha0) (Herr b0 Hb0))
    as H0.
  pose proof (product_error d a1 b1 _ _ Ha1 Hb1 (Herr a1 Ha1) (Herr b1 Hb1))
    as H1.
  pose proof (product_error d a2 b2 _ _ Ha2 Hb2 (Herr a2 Ha2) (Herr b2 Hb2))
    as H2.
  replace (round32 a0 * round32 b0 + round32 a1 * round32 b1
           + round32 a2 * round32 b2 - (a0 * b0 + a1 * b1 + a2 * b2))
    with ((round32 a0 * round32 b0 - a0 * b0)
          + (round32 a1 * round32 b1 - a1 * b1)
          + (round32 a2 * round32 b2 - a2 * b2)) by ring.
  eapply Rle_trans; [apply Rabs_triang|].
  eapply Rle_trans; [apply Rplus_le_compat_r, Rabs_triang|]. lra.
Qed.


(** The view from (3, 0, 4) to the origin, with (0, 1, 0) up. *)
Lemma slanted_sight : normalize (3 - 0, 0 - 0, 4 - 0) = (3 / 5, 0, 4 / 5).
Proof.
  assert (Hpos : 0 < dot (3 - 0, 0 - 0, 4 - 0) (3 - 0, 0 - 0, 4 - 0))
    by (unfold dot; lra).
  destruct (normalize_nonzero _ _ _ Hpos) as (l & Hl & Hll & ->).
  unfold dot in Hll.
  assert (Hl5 : l = 5) by nra. subst l.
  f_equal; [f_equal|]; field.
Qed.


End Vectors.

(** ** The theme and the navigation menu *)

Module Chrome.

Local Open Scope string_scope.

Import ThemeManager.

Lemma toggle_theme (b : Browser) (s : State) :
  currentTheme (toggle b s)
  = if String.eqb (currentTheme s) "light" then "dark" else "light".
Proof.
  unfold toggle, setStoredTheme.
  destruct (localStorageWorks b); reflexivity.
Qed.

(** X23: after a toggle the theme is "light" or "dark", whatever it was
    before (a stored value that is neither counts as dark and is replaced by
    "light"); from then on two toggles give the same theme again; and the
    class of the document is "light" exactly for the light theme. *)
Theorem toggle_alternates (b : Browser) (s : State) :
  (currentTheme (toggle b s) = "light" \/ currentTheme (toggle b s) = "dark")
  /\ currentTheme (toggle b (toggle b (toggle b s)))
     = currentTheme (toggle b s)
  /\ (currentTheme s <> "light" -> currentTheme (toggle b s) = "light")
  /\ className (toggle b s)
     = (if String.eqb (currentTheme (toggle b s)) "light" then "light"
        else "").
Proof.
  rewrite !toggle_theme.
  split; [destruct (String.eqb (currentTheme s) "light"); auto|].
  split; [destruct (String.eqb (currentTheme s) "light"); reflexivity|].
  split.
  - intros Hne. apply String.eqb_neq in Hne. rewrite Hne. reflexivity.
  - unfold toggle, setStoredTheme, applyTheme.
    destruct (localStorageWorks b); reflexivity.
Qed.

Lemma toggle_alternates_witness :
  let b := {| localStorageWorks := true; prefersLight := false |} in
  currentTheme (load b (Some "blue")) = "blue"
  /\ className (load b (Some "blue")) = ""
  /\ currentTheme (toggle b (load b (Some "blue"))) = "light".
Proof.
  intros b.
  destruct (toggle_alternates b (load b (Some "blue"))) as (_ & _ & Hfirst & _).
  split; [reflexivity|]. split; [reflexivity|].
  apply Hfirst. discriminate.
Defined.

(** X24: when [localStorage] works, the theme chosen by a toggle is the one
    that [detectTheme] finds afterwards and the one a reload of the page
    starts with, whatever scheme the system then prefers. *)
Theorem toggle_survives_reload (b b' : Browser) (s : State) :
  localStorageWorks b = true ->
  localStorageWorks b' = true ->
  stored (toggle b s) = Some (currentTheme (toggle b s))
  /\ detectTheme b' (toggle b s) = currentTheme (toggle b s)
  /\ currentTheme (load b' (stored (toggle b s)))
     = currentTheme (toggle b s).
Proof.
  intros Hb Hb'. unfold load, detectTheme, getStoredTheme, toggle,
    setStoredTheme.
  rewrite Hb, Hb'. simpl.
  destruct (String.eqb (currentTheme s) "light"); repeat split; reflexivity.
Qed.

Lemma toggle_survives_reload_witness :
  let b := {| localStorageWorks := true; prefersLight := false |} in
  let b' := {| localStorageWorks := true; prefersLight := true |} in
  currentTheme (load b' (stored (toggle b (load b None))))
  = currentTheme (toggle b (load b None)).
Proof.
  intros b b'.
  destruct (toggle_survives_reload b b' (load b None) eq_refl eq_refl)
    as (_ & _ & Hreload).
  exact Hreload.
Defined.

(** X25: a change of the system scheme after a toggle: when [localStorage]
    works the choice of the user stays; when it does not, nothing was stored
    and the theme of the system replaces the choice of the user. *)
Theorem system_change_after_toggle (b : Browser) (matches : bool) (s : State) :
  systemChange b matches (toggle b s)
  = if localStorageWorks b then toggle b s
    else applyTheme (if matches then "light" else "dark") (toggle b s).
Proof.
  unfold systemChange, getStoredTheme, toggle, setStoredTheme.
  destruct (localStorageWorks b); simpl; [|reflexivity].
  destruct (String.eqb (currentTheme s) "light"); reflexivity.
Qed.

Lemma menu_deliver_consistent (s : MobileNav.State) (ev : MobileNav.Event) :
  MobileNav.consistent s -> MobileNav.consistent (MobileNav.deliver s ev).
Proof.
  intros Hs. destruct ev as [|inHeader|key]; simpl; unfold MobileNav.toggle;
    repeat match goal with
           | |- context [if ?c then _ else _] => destruct c
           end;
    (exact Hs || (repeat split; reflexivity)).
Qed.

(** X26: whatever clicks and keys reach the navigation menu, the classes of
    the navigation and of the button and the [aria-expanded] attribute agree
    with [isOpen]; the Escape key and a click outside the header leave the
    menu closed. *)
Theorem menu_stays_consistent (evs : list MobileNav.Event) :
  let s := fold_left MobileNav.deliver evs MobileNav.init in
  MobileNav.navOpen s = MobileNav.isOpen s
  /\ MobileNav.menuToggleOpen s = MobileNav.isOpen s
  /\ MobileNav.ariaExpanded s
     = (if MobileNav.isOpen s then "true" else "false")
  /\ MobileNav.isOpen (MobileNav.deliver s (MobileNav.KeyDown "Escape"))
     = false
  /\ MobileNav.isOpen (MobileNav.deliver s (MobileNav.DocumentClick false))
     = false.
Proof.
  intros s.
  assert (Hs : MobileNav.consistent s).
  { unfold s. clear s.
    assert (Hinit : MobileNav.consistent MobileNav.init)
      by (repeat split; reflexivity).
    revert Hinit. generalize MobileNav.init.
    induction evs as [|ev evs IH]; intros s0 Hs0; simpl; [exact Hs0|].
    apply IH, menu_deliver_consistent, Hs0. }
  destruct Hs as (Hnav & Hbtn & Haria).
  split; [exact Hnav|]. split; [exact Hbtn|]. split; [exact Haria|].
  simpl. destruct (MobileNav.isOpen s) eqn:Hopen; simpl;
    split; (reflexivity || exact Hopen).
Qed.

End Chrome.

(** ** Runs on binary64 *)

Module Runs.

Import Inputs.

Lemma objectCount_tracks_objects_witness :
  objectCount full_world = length (objects full_world).
Proof.
  exact (objectCount_tracks_objects full_world Binary64.full_world_reachable).
Defined.

Lemma spawns_fill_to_cap_witness :
  length (objects
            (spawn_all
               [(dec 10 0, dec 20 0, still_draws);
                (dec 30 0, dec 40 0, still_draws);
                (dec 50 0, dec 60 0, still_draws)] full_world)) = 50
  /\ length (objects
               (spawn_all
                  [(dec 10 0, dec 20 0, still_draws);
                   (dec 30 0, dec 40 0, still_draws);
                   (dec 50 0, dec 60 0, still_draws)]
                  (clearObjects full_world))) = 3.
Proof.
  assert (Hcap : length (objects full_world) <= 50)
    by (vm_compute; lia).
  destruct (spawns_fill_to_cap
              [(dec 10 0, dec 20 0, still_draws);
               (dec 30 0, dec 40 0, still_draws);
               (dec 50 0, dec 60 0, still_draws)] full_world Hcap)
    as [Hfill Hclear].
  split.
  - rewrite Hfill. vm_compute. reflexivity.
  - rewrite Hclear. reflexivity.
Defined.

(** A swipe to the left, a click on the third indicator and the left arrow
    reach a carousel of three slides. *)
Lemma carousel_stays_consistent_witness :
  let c := fold_left Carousel.deliver
             [Carousel.PointerDown (dec 100 0);
              Carousel.PointerMove (dec 10 0) (dec 300 0);
              Carousel.PointerUp (dec 300 0); Carousel.IndicatorClick 2;
              Carousel.ArrowLeft]
             (Carousel.init 3) in
  (0 <= Carousel.currentIndex c < 3)%Z
  /\ Carousel.translateX c = (- Carousel.currentIndex c * 100)%Z
  /\ length (filter (fun b => b = true) (Carousel.active c)) = 1.
Proof.
  assert (Hn : 0 < 3) by lia.
  assert (Hevs : Forall (Carousel.possible 3)
                   [Carousel.PointerDown (dec 100 0);
                    Carousel.PointerMove (dec 10 0) (dec 300 0);
                    Carousel.PointerUp (dec 300 0); Carousel.IndicatorClick 2;
                    Carousel.ArrowLeft])
    by (repeat constructor).
  destruct (carousel_stays_consistent 3 _ Hn Hevs)
    as (Hi & Ht & _ & _ & Hone & _).
  split; [exact Hi|]. split; [exact Ht|exact Hone].
Defined.

Lemma next_prev_round_trip_witness :
  Carousel.currentIndex
    (Carousel.prev (Carousel.next (Carousel.init 3 : Carousel.State float)))
  = 0%Z
  /\ Carousel.currentIndex
       (Carousel.prev (Carousel.init 3 : Carousel.State float)) = 2%Z.
Proof.
  assert (Hi : (0 <= Carousel.currentIndex
                       (Carousel.init 3 : Carousel.State float)
                < Z.of_nat (Carousel.slides
                              (Carousel.init 3 : Carousel.State float)))%Z)
    by (simpl; lia).
  destruct (next_prev_round_trip (Carousel.init 3 : Carousel.State float) Hi)
    as (Hround & _ & _ & Hwrap).
  split; [exact Hround|]. apply Hwrap. reflexivity.
Defined.

Lemma full_cycle_witness :
  Carousel.currentIndex
    (Nat.iter 3 Carousel.next (Carousel.init 3 : Carousel.State float)) = 0%Z.
Proof.
  assert (Hi : (0 <= Carousel.currentIndex
                       (Carousel.init 3 : Carousel.State float)
                < Z.of_nat (Carousel.slides
                              (Carousel.init 3 : Carousel.State float)))%Z)
    by (simpl; lia).
  exact (full_cycle (Carousel.init 3 : Carousel.State float) Hi).
Defined.

(** The view matrix from (1, 2, 3) to the origin, as [createLookAtMatrix]
    returns it: sixteen binary32 values.  The scalar products of the rows of
    its rotation part are, exactly, those of an orthonormal basis to within
    7 * 2^-25, and not to within 0. *)
Lemma oblique_view_binary32 :
  Camera.oblique_view = Camera.oblique_view_entries
  /\ Camera.orthonormal_within (7 # 33554432) Camera.oblique_view = true
  /\ Camera.orthonormal_within 0 Camera.oblique_view = false.
Proof. repeat split; vm_compute; reflexivity. Qed.

End Runs.
